(** * screwdriver-executor-docker: the Docker executor's build lifecycle

    A shallow embedding of [DockerExecutor] (the class of the executor's
    index.js, in its latest revision: the one with a configurable launcher
    image, the per-build timeout annotation and the privileged build
    container) together with the properties its design document states
    about it.  The earlier revision kept with the sources resolves the build
    image with the same lines and runs the same chain of calls, with the
    launcher image fixed and another command for the build container.

    Layout:
    - JavaScript values and string primitives the executor relies on
      ([split], [join], [parseInt], template literals, [JSON.stringify]);
    - the image reference grammar of the [docker-parse-image] package;
    - the Docker runtime seen through the circuit breaker, as an oracle
      that answers every call from the history of events so far;
    - promises: a call is issued at once and settled later, [Promise.all]
      settles the calls in flight in an order chosen by the runtime;
    - [_start], [_stop] and the runtime client methods;
    - the theorems. *)

From Stdlib Require Import ZArith Ascii String List Lia.
From stdpp Require Import gmap strings list pretty.

Open Scope string_scope.
Open Scope list_scope.

#[local] Set Warnings "-register-all".
#[local] Arguments String.append s1 s2 : simpl nomatch.

(** ** JavaScript strings *)

Module Js.

(** The double quote character, used by template literals such as
    [`"${config.token}"`] and by [JSON.stringify]. *)
Definition dquote : ascii := "034"%char.
Definition backslash : ascii := "092"%char.

Definition str (c : ascii) : string := String c EmptyString.

(** Longest prefix of [s] whose characters satisfy [p], and the rest. *)
Fixpoint span (p : ascii -> bool) (s : string) : string * string :=
  match s with
  | EmptyString => (EmptyString, EmptyString)
  | String c s' =>
      if p c then let (a, r) := span p s' in (String c a, r)
      else (EmptyString, s)
  end.

Fixpoint forallb (p : ascii -> bool) (s : string) : bool :=
  match s with
  | EmptyString => true
  | String c s' => p c && forallb p s'
  end.

Definition existsb (p : ascii -> bool) (s : string) : bool :=
  negb (forallb (fun c => negb (p c)) s).

Definition is_empty (s : string) : bool :=
  match s with EmptyString => true | String _ _ => false end.

(** [s.split(c)] for a one-character separator: never the empty array. *)
Fixpoint split (c : ascii) (s : string) : list string :=
  match s with
  | EmptyString => [EmptyString]
  | String a s' =>
      let r := split c s' in
      if Ascii.eqb a c then EmptyString :: r
      else String a (hd EmptyString r) :: tl r
  end.

(** [l.join(sep)] on an array of strings. *)
Fixpoint join (sep : string) (l : list string) : string :=
  match l with
  | [] => EmptyString
  | [x] => x
  | x :: r => x +:+ sep +:+ join sep r
  end.

(** [l.pop()], for the array that is left. *)
Definition pop (l : list string) : list string := removelast l.

(** [a || b] on strings: the empty string and [undefined] are falsy. *)
Definition or_default (a : option string) (b : string) : string :=
  match a with
  | Some (String c s) => String c s
  | _ => b
  end.

End Js.

(** ** The image reference grammar ([docker-parse-image])

    [index.js] requires the package [docker-parse-image] and calls it as
    [imageParser(config.container)].  The package is a dependency and not
    part of the executor's sources; this module follows its one function:

    {v
    var match = image.match(
      /^(?:([^\/]+)\/)?(?:([^\/]+)\/)?([^@:\/]+)(?:[@:](.+))?$/)
    if (!match) return null
    var registry = match[1], namespace = match[2]
    var repository = match[3], tag = match[4]
    if (!namespace && registry && !/[:.]/.test(registry)) {
      namespace = registry
      registry = null
    }
    var result = { registry: registry || null, namespace: namespace || null,
                   repository: repository, tag: tag || null }
    registry = registry ? registry+'/' : ''
    namespace = namespace && namespace !== 'library' ? namespace+'/' : ''
    tag = tag && tag !== 'latest' ? ':'+tag : ''
    result.name = registry + namespace + repository + tag
    result.fullname = registry + (namespace || 'library/') + repository
                      + (tag || ':latest')
    return result
    v}

    The executor reads the fields [tag] and [name] only. *)

Module DockerParseImage.

Record ParsedImage := {
  registry : option string;
  namespace : option string;
  repository : string;
  tag : option string;
  name : string;
  fullname : string
}.

Definition is_slash (c : ascii) : bool := Ascii.eqb c "/".
Definition is_tag_sep (c : ascii) : bool := Ascii.eqb c "@" || Ascii.eqb c ":".
(** [[^@:\/]] *)
Definition is_repo_char (c : ascii) : bool := negb (is_tag_sep c || is_slash c).
(** [.] matches every character but a line terminator. *)
Definition is_dot_char (c : ascii) : bool :=
  negb (Ascii.eqb c "010" || Ascii.eqb c "013").
(** [/[:.]/] *)
Definition is_colon_or_dot (c : ascii) : bool :=
  Ascii.eqb c ":" || Ascii.eqb c ".".

(** [(?:([^\/]+)\/)] at the head of [s]: the captured segment and what
    follows the slash. *)
Definition segment (s : string) : option (string * string) :=
  match Js.span (fun c => negb (is_slash c)) s with
  | (String c a, String _ r) => Some (String c a, r)
  | _ => None
  end.

(** [([^@:\/]+)(?:[@:](.+))?$]: the repository and the optional tag. *)
Definition repo_tag (s : string) : option (string * option string) :=
  match Js.span is_repo_char s with
  | (String c a, EmptyString) => Some (String c a, None)
  | (String c a, String sep (String t ts)) =>
      if is_tag_sep sep && Js.forallb is_dot_char (String t ts)
      then Some (String c a, Some (String t ts))
      else None
  | _ => None
  end.

(** The four capture groups of the first successful match.  The regular
    expression engine tries both optional segments, then the first alone,
    then neither; skipping the first segment and keeping the second reads
    the same text as keeping the first alone, so it never succeeds where
    that one failed. *)
Definition regex_match (image : string)
  : option (option string * option string * string * option string) :=
  let neither :=
    match repo_tag image with
    | Some (g3, g4) => Some (None, None, g3, g4)
    | None => None
    end in
  match segment image with
  | None => neither
  | Some (g1, r1) =>
      let first_only :=
        match repo_tag r1 with
        | Some (g3, g4) => Some (Some g1, None, g3, g4)
        | None => neither
        end in
      match segment r1 with
      | None => first_only
      | Some (g2, r2) =>
          match repo_tag r2 with
          | Some (g3, g4) => Some (Some g1, Some g2, g3, g4)
          | None => first_only
          end
      end
  end.

Definition parse (image : string) : option ParsedImage :=
  match regex_match image with
  | None => None
  | Some (g1, g2, repo, g4) =>
      let '(reg, ns) :=
        match g2, g1 with
        | None, Some r =>
            if negb (Js.existsb is_colon_or_dot r) then (None, Some r)
            else (g1, g2)
        | _, _ => (g1, g2)
        end in
      let registry' := match reg with Some r => r +:+ "/" | None => EmptyString end in
      let namespace' :=
        match ns with
        | Some n => if String.eqb n "library" then EmptyString else n +:+ "/"
        | None => EmptyString
        end in
      let tag' :=
        match g4 with
        | Some t => if String.eqb t "latest" then EmptyString else ":" +:+ t
        | None => EmptyString
        end in
      Some {| registry := reg;
              namespace := ns;
              repository := repo;
              tag := g4;
              name := registry' +:+ namespace' +:+ repo +:+ tag';
              fullname :=
                registry'
                +:+ (if Js.is_empty namespace' then "library/" else namespace')
                +:+ repo
                +:+ (if Js.is_empty tag' then ":latest" else tag') |}
  end.

End DockerParseImage.

(** ** The image pulled for a build (the head of [_start])

    {v
    const piecesParts = imageParser(config.container);
    let buildTag = piecesParts.tag;
    let buildImage = piecesParts.name;
    if (piecesParts.tag !== null && piecesParts.tag !== 'latest') {
        const containerNameParts = piecesParts.name.split(':');
        containerNameParts.pop();
        buildImage = containerNameParts.join(':');
    } else {
        buildTag = 'latest';
    }
    v} *)

Definition buildImageTag (piecesParts : DockerParseImage.ParsedImage)
  : string * string :=
  match DockerParseImage.tag piecesParts with
  | Some t =>
      if negb (String.eqb t "latest") then
        let containerNameParts :=
          Js.split ":" (DockerParseImage.name piecesParts) in
        (Js.join ":" (Js.pop containerNameParts), t)
      else (DockerParseImage.name piecesParts, "latest")
  | None => (DockerParseImage.name piecesParts, "latest")
  end.

(** The pair [fromImage], [tag] that [_start] pulls for [container];
    [None] when the parser returns [null] and [piecesParts.tag] throws. *)
Definition resolve
    (imageParser : string -> option DockerParseImage.ParsedImage)
    (container : string) : option (string * string) :=
  option_map buildImageTag (imageParser container).

(** ** JavaScript values met in a build request *)

(** The values an annotation can hold.  Numbers are the integers (a
    [Number] with an integral value below 2^53 in magnitude, which prints
    in plain decimal); fractions, [NaN] and objects are outside the model. *)
Inductive JsValue :=
| JsUndefined
| JsNull
| JsBool (b : bool)
| JsNumber (z : Z)
| JsString (s : string).

Definition truthy (v : JsValue) : bool :=
  match v with
  | JsUndefined | JsNull => false
  | JsBool b => b
  | JsNumber z => negb (Z.eqb z 0)
  | JsString s => negb (Js.is_empty s)
  end.

(** [a || b] *)
Definition js_or (a b : JsValue) : JsValue := if truthy a then a else b.

(** [String(v)].  A number prints in plain decimal, as JavaScript prints
    an integer below 10^21. *)
Definition ToString (v : JsValue) : string :=
  match v with
  | JsUndefined => "undefined"
  | JsNull => "null"
  | JsBool true => "true"
  | JsBool false => "false"
  | JsNumber z => pretty z
  | JsString s => s
  end.

(** White space skipped by [parseInt], of the code units below 256: tab,
    line feed, vertical tab, form feed, carriage return, space and the
    no-break space. *)
Definition is_space (c : ascii) : bool :=
  let n := nat_of_ascii c in
  (Nat.leb 9 n && Nat.leb n 13) || Nat.eqb n 32 || Nat.eqb n 160.

Definition is_digit (c : ascii) : bool :=
  let n := nat_of_ascii c in Nat.leb 48 n && Nat.leb n 57.

Fixpoint digits_value (acc : Z) (s : string) : Z :=
  match s with
  | EmptyString => acc
  | String c s' => digits_value (10 * acc + Z.of_nat (nat_of_ascii c - 48)) s'
  end.

(** [parseInt(v, 10)]; [None] is [NaN].  The result is the integer the
    digits write.  JavaScript gives the [Number] nearest to it, which is that
    integer below 2^53: the properties of the timeout are stated for such
    integers ([isSafeInteger]). *)
Definition parseInt (v : JsValue) : option Z :=
  let s := snd (Js.span is_space (ToString v)) in
  let '(sign, body) :=
    match s with
    | String c r =>
        if Ascii.eqb c "-" then ((-1)%Z, r)
        else if Ascii.eqb c "+" then (1%Z, r)
        else (1%Z, s)
    | EmptyString => (1%Z, s)
    end in
  match fst (Js.span is_digit body) with
  | EmptyString => None
  | ds => Some (sign * digits_value 0 ds)%Z
  end.

(** A number as [Array.prototype.join] and template literals print it:
    plain decimal, as JavaScript prints an integer below 10^21. *)
Definition NumberToString (n : option Z) : string :=
  match n with
  | None => "NaN"
  | Some z => pretty z
  end.

(** ** [JSON.stringify], for strings, arrays and objects *)

Module JSON.

Inductive Json :=
| JString (s : string)
| JArray (l : list Json)
| JObject (l : list (string * Json)).

Definition hex_digit (n : nat) : ascii :=
  if Nat.ltb n 10 then ascii_of_nat (48 + n) else ascii_of_nat (87 + n).

Definition escape (c : ascii) : string :=
  let n := nat_of_ascii c in
  if Ascii.eqb c Js.dquote then String Js.backslash (Js.str Js.dquote)
  else if Ascii.eqb c Js.backslash then String Js.backslash (Js.str Js.backslash)
  else if Nat.eqb n 8 then String Js.backslash "b"
  else if Nat.eqb n 9 then String Js.backslash "t"
  else if Nat.eqb n 10 then String Js.backslash "n"
  else if Nat.eqb n 12 then String Js.backslash "f"
  else if Nat.eqb n 13 then String Js.backslash "r"
  else if Nat.ltb n 32 then
    String Js.backslash
      ("u00" +:+ String (hex_digit (n / 16)) (Js.str (hex_digit (n mod 16))))
  else Js.str c.

Fixpoint escape_all (s : string) : string :=
  match s with
  | EmptyString => EmptyString
  | String c s' => escape c +:+ escape_all s'
  end.

Definition quote (s : string) : string :=
  String Js.dquote (escape_all s +:+ Js.str Js.dquote).

Fixpoint stringify (j : Json) : string :=
  match j with
  | JString s => quote s
  | JArray l => "[" +:+ Js.join "," (map stringify l) +:+ "]"
  | JObject l =>
      "{" +:+ Js.join ","
               (map (fun '(k, v) => quote k +:+ ":" +:+ stringify v) l)
          +:+ "}"
  end.

End JSON.

(** ** What the executor sends to and receives from dockerode *)

Module Dockerode.

Record ImageOptions := { fromImage : string; tag : string }.

Record HostConfigT := {
  Memory : Z;
  MemoryLimit : Z;
  VolumesFrom : list string;
  Privileged : bool;
  Binds : list string
}.

Record ContainerOptions := {
  name : string;
  Image : string;
  Entrypoint : string;
  Labels : gmap string string;
  Cmd : option (list string);
  HostConfig : option HostConfigT
}.

(** A container object: [docker.getContainer(id)], or what
    [docker.createContainer] yields. *)
Record Container := { id : string }.

(** An entry of the array [docker.listContainers] yields. *)
Record ContainerInfo := { Id : string }.

Record ListArgs := { filters : string; all : bool }.

Record RemoveOptions := { v : bool; force : bool }.

Definition getContainer (i : string) : Container := {| id := i |}.

End Dockerode.

Import Dockerode.

Definition Error := string.

Inductive Result (A : Type) :=
| Resolved (a : A)
| Rejected (e : Error).
Arguments Resolved {A} a.
Arguments Rejected {A} e.

Definition Result_map {A B} (f : A -> B) (r : Result A) : Result B :=
  match r with
  | Resolved a => Resolved (f a)
  | Rejected e => Rejected e
  end.

(** The five calls that reach the runtime. *)
Inductive Call :=
| CreateImage (options : ImageOptions)
| CreateContainer (options : ContainerOptions)
| ContainerStart (container : Container)
| ContainerRemove (container : Container) (options : RemoveOptions)
| ListContainers (listArgs : ListArgs).

(** What a call yields to its callback. *)
Inductive Value :=
| VUndefined
| VContainer (c : Container)
| VContainers (l : list ContainerInfo).

(** A call is issued when the executor hands it to the breaker, and
    settled when its promise resolves or rejects. *)
Inductive Event :=
| Issued (c : Call)
| Settled (c : Call) (r : Result Value).

Definition Trace := list Event.

(** The runtime behind [this.breaker.runCommand]: the circuit breaker and
    the Docker daemon taken together.  Each answer may depend on everything
    that happened before (an open breaker, a name already in use, ...), so
    the oracle reads the whole history.  [next h n] says which of the [n]
    calls in flight settles next. *)
Record Runtime := {
  createImage : Trace -> ImageOptions -> Result unit;
  createContainer : Trace -> ContainerOptions -> Result Container;
  start : Trace -> Container -> Result unit;
  remove : Trace -> Container -> RemoveOptions -> Result unit;
  listContainers : Trace -> ListArgs -> Result (list ContainerInfo);
  next : Trace -> nat -> nat
}.

(** ** Asynchronous computations

    An [Async A] reads the history so far and yields the events it adds
    and its outcome.  A rejection skips the rest of the chain. *)

Definition Async (A : Type) := Trace -> Trace * Result A.

Definition ret {A} (a : A) : Async A := fun _ => ([], Resolved a).

Definition bind {A B} (m : Async A) (f : A -> Async B) : Async B :=
  fun h =>
    let (e1, r) := m h in
    match r with
    | Resolved a => let (e2, r2) := f a (h ++ e1) in (e1 ++ e2, r2)
    | Rejected e => (e1, Rejected e)
    end.

Declare Scope async_scope.
Delimit Scope async_scope with async.
Notation "x <- m ;; k" := (bind m (fun x => k))
  (at level 100, m at next level, right associativity) : async_scope.
Open Scope async_scope.

(** A promise of a call in flight: how the runtime will settle it, given
    the history at that time (the logged value and the promise's value). *)
Record Promise (A : Type) := {
  call : Call;
  settle : Trace -> Result Value * Result A
}.
Arguments call {A} _.
Arguments settle {A} _ _.

(** [breaker.runCommand({ func })]: the call is issued at once. *)
Definition runCommand {A} (c : Call) (answer : Trace -> Result A)
    (inj : A -> Value) : Async (Promise A) :=
  fun _ =>
    ([Issued c],
     Resolved {| call := c;
                 settle := fun h => (Result_map inj (answer h), answer h) |}).

(** [promise.then(f)] for a synchronous [f]. *)
Definition Promise_then {A B} (p : Promise A) (f : A -> B) : Promise B :=
  {| call := call p;
     settle := fun h => let (l, r) := settle p h in (l, Result_map f r) |}.

(** Waiting for a promise: the chain resumes when the call settles. *)
Definition await {A} (p : Promise A) : Async A :=
  fun h => let (l, r) := settle p h in ([Settled (call p) l], r).

(** [m.then(f)] where [m] issues a call and [f] starts the next step. *)
Definition and_then {A B} (m : Async (Promise A)) (f : A -> Async B)
  : Async B :=
  p <- m ;; a <- await p ;; f a.

Notation "x <~ m ;; k" := (and_then m (fun x => k))
  (at level 100, m at next level, right associativity) : async_scope.

Fixpoint mapM {A B} (f : A -> Async B) (l : list A) : Async (list B) :=
  match l with
  | [] => ret []
  | x :: r => y <- f x ;; ys <- mapM f r ;; ret (y :: ys)
  end.

(** The [i]-th element of the non-empty list [x :: l] (the last one when
    [i] is too large) and the others, in order. *)
Fixpoint extract {A} (i : nat) (x : A) (l : list A) : A * list A :=
  match i, l with
  | S i', y :: l' => let (z, r) := extract i' y l' in (z, x :: r)
  | _, _ => (x, l)
  end.

(** ** The executor *)

Record Ecosystem := { api : string; store : string; ui : string }.

Module Options.
Record t := {
  ecosystem : Ecosystem;
  launchVersion : option string;
  launchImage : option string;
  prefix : option string
}.
End Options.

Record DockerExecutor := {
  ecosystem : Ecosystem;
  launchVersion : string;
  launchImage : string;
  prefix : string
}.

Definition constructor (options : Options.t) : DockerExecutor :=
  {| ecosystem := Options.ecosystem options;
     launchVersion := Js.or_default (Options.launchVersion options) "stable";
     launchImage :=
       Js.or_default (Options.launchImage options) "screwdrivercd/launcher";
     prefix := Js.or_default (Options.prefix options) EmptyString |}.

(** The build request handed to [_start] and [_stop].  The build id is an
    integer, printed in decimal by template literals and by [join]. *)
Record Config := {
  buildId : Z;
  container : string;
  token : string;
  annotations : option (gmap string JsValue)
}.

Definition DEFAULT_BUILD_TIMEOUT : Z := 90.

(** [hoek.reach(config, 'annotations>' + key, { separator: '>' })]:
    [undefined] when a segment of the path is missing. *)
Definition reach_annotations (config : Config) (key : string) : JsValue :=
  match annotations config with
  | Some m => default JsUndefined (m !! key)
  | None => JsUndefined
  end.

(** [const timeout = parseInt(buildTimeout || DEFAULT_BUILD_TIMEOUT, 10)] *)
Definition timeout (config : Config) : option Z :=
  let buildTimeout := reach_annotations config "screwdriver.cd/timeout" in
  parseInt (js_or buildTimeout (JsNumber DEFAULT_BUILD_TIMEOUT)).

Section Executor.

Variable imageParser : string -> option DockerParseImage.ParsedImage.
Variable rt : Runtime.
Variable this : DockerExecutor.

(** [Promise.all(ps)]: the promises settle one at a time, in the order the
    runtime picks; the first rejection rejects the whole, the values of a
    full success come in the order of [ps]. *)
Fixpoint settle_all {A} (n : nat) (pending : list (nat * Promise A))
    (values : gmap nat A) : Async (gmap nat A) :=
  match n, pending with
  | S n', p :: ps =>
      fun h =>
        let '((k, q), rest) := extract (next rt h (length pending)) p ps in
        (a <- await q ;; settle_all n' rest (<[k := a]> values)) h
  | _, _ => ret values
  end.

Definition Promise_all {A} (ps : list (Promise A)) : Async (list A) :=
  values <- settle_all (length ps) (imap pair ps) (∅ : gmap nat A) ;;
  ret (omap (fun k => values !! k) (seq 0 (length ps))).

Definition _createContainer (options : ContainerOptions)
  : Async (Promise Container) :=
  runCommand (CreateContainer options)
    (fun h => createContainer rt h options) VContainer.

Definition _createImage (options : ImageOptions) : Async (Promise unit) :=
  runCommand (CreateImage options)
    (fun h => createImage rt h options) (fun _ => VUndefined).

Definition _startContainer (container : Container) : Async (Promise unit) :=
  runCommand (ContainerStart container)
    (fun h => start rt h container) (fun _ => VUndefined).

Definition _removeContainer (container : Container) : Async (Promise unit) :=
  let options := {| v := true; force := true |} in
  runCommand (ContainerRemove container options)
    (fun h => remove rt h container options) (fun _ => VUndefined).

(** The tracking label of a build: [`${this.prefix}${buildId}`]. *)
Definition sdbuild (buildId : Z) : string := prefix this +:+ pretty buildId.

Definition listArgs (buildId : Z) : ListArgs :=
  {| filters :=
       JSON.stringify
         (JSON.JObject
            [("label", JSON.JArray [JSON.JString ("sdbuild=" +:+ sdbuild buildId)])]);
     all := true |}.

Definition _findContainers (buildId : Z) : Async (Promise (list Container)) :=
  p <- runCommand (ListContainers (listArgs buildId))
         (fun h => listContainers rt h (listArgs buildId)) VContainers ;;
  ret (Promise_then p (map (fun container => getContainer (Id container)))).

(** The two images [_start] pulls. *)
Definition launcherImageOptions : ImageOptions :=
  {| fromImage := launchImage this; tag := launchVersion this |}.

Definition buildImageOptions (piecesParts : DockerParseImage.ParsedImage)
  : ImageOptions :=
  {| fromImage := fst (buildImageTag piecesParts);
     tag := snd (buildImageTag piecesParts) |}.

(** The options of the two containers [_start] creates. *)
Definition launchContainerOptions (config : Config) : ContainerOptions :=
  {| name := sdbuild (buildId config) +:+ "-init";
     Image := launchImage this +:+ ":" +:+ launchVersion this;
     Entrypoint := "/bin/true";
     Labels := {[ "sdbuild" := sdbuild (buildId config) ]};
     Cmd := None;
     HostConfig := None |}.

Definition buildContainerOptions (config : Config)
    (launchContainer : Container) : ContainerOptions :=
  {| name := sdbuild (buildId config) +:+ "-build";
     Image := container config;
     Entrypoint := "/opt/sd/launcher_entrypoint.sh";
     Labels := {[ "sdbuild" := sdbuild (buildId config) ]};
     Cmd :=
       Some
         [Js.join " "
            [ "/opt/sd/run.sh";
              String Js.dquote (token config +:+ Js.str Js.dquote);
              api (ecosystem this);
              store (ecosystem this);
              NumberToString (timeout config);
              pretty (buildId config);
              ui (ecosystem this) ]];
     HostConfig :=
       Some {| Memory := 2 * 1024 * 1024 * 1024;
               MemoryLimit := 3 * 1024 * 1024 * 1024;
               VolumesFrom := [id launchContainer +:+ ":rw"];
               Privileged := true;
               Binds := ["/var/run/docker.sock:/var/run/docker.sock"] |} |}.

(** The promise chain of [_start], once the image reference is parsed. *)
Definition _start_chain (piecesParts : DockerParseImage.ParsedImage)
    (config : Config) : Async unit :=
  p1 <- _createImage launcherImageOptions ;;
  p2 <- _createImage (buildImageOptions piecesParts) ;;
  _ <- Promise_all [p1; p2] ;;
  launchContainer <~ _createContainer (launchContainerOptions config) ;;
  buildContainer <~
    _createContainer (buildContainerOptions config launchContainer) ;;
  _ <~ _startContainer buildContainer ;;
  ret tt.

(** [_start(config)]: [None] when [imageParser] returns [null], and reading
    [piecesParts.tag] throws before a promise exists. *)
Definition _start (config : Config) : option (Async unit) :=
  match imageParser (container config) with
  | Some piecesParts => Some (_start_chain piecesParts config)
  | None => None
  end.

(** [_stop(config)] *)
Definition _stop (config : Config) : Async (list unit) :=
  containers <~ _findContainers (buildId config) ;;
  removals <- mapM _removeContainer containers ;;
  Promise_all removals.

End Executor.

(** ** The first revision of [_start]

    The executor first read the image without a parser:

    {v
    const [buildImage, buildTag] = config.container.split(':');
    ...
    this._createImage({
        fromImage: buildImage,
        tag: buildTag || 'latest'
    })
    v} *)

Module FirstRevision.

(** The pair [fromImage], [tag] pulled for [container]: the first two
    pieces between colons; a second piece that is missing or empty gives
    [latest]. *)
Definition resolve (container : string) : string * string :=
  let parts := Js.split ":" container in
  let buildImage := hd EmptyString parts in
  let buildTag := nth_error parts 1 in
  (buildImage, Js.or_default buildTag "latest").

End FirstRevision.

(** * The vocabulary of the properties *)

(** ** Image references *)

(** The shape of the parts of a reference [host[:port]/repo:tag].  A first
    segment is a registry host when it holds a colon or a dot (a port or a
    domain), which is how the grammar tells a host from a namespace. *)
Module Reference.

Definition no_slash (s : string) : bool :=
  Js.forallb (fun c => negb (DockerParseImage.is_slash c)) s.

Definition segment_name (s : string) : bool :=
  negb (Js.is_empty s) && no_slash s.

Definition registry_host (h : string) : bool :=
  segment_name h && Js.existsb DockerParseImage.is_colon_or_dot h.

Definition repo_name (r : string) : bool :=
  negb (Js.is_empty r) && Js.forallb DockerParseImage.is_repo_char r.

Definition tag_char (c : ascii) : bool :=
  DockerParseImage.is_dot_char c && negb (Ascii.eqb c ":")
  && negb (DockerParseImage.is_slash c).

Definition tag_name (t : string) : bool :=
  negb (Js.is_empty t) && Js.forallb tag_char t.

End Reference.

(** The text a capture group of an optional segment stands for. *)
Definition with_slash (g : option string) : string :=
  match g with
  | Some a => a +:+ "/"
  | None => EmptyString
  end.

(** The namespace segment of the short name the parser builds: left out
    when the namespace is [library]. *)
Definition short_namespace (ns : option string) : string :=
  match ns with
  | Some n => if String.eqb n "library" then EmptyString else n +:+ "/"
  | None => EmptyString
  end.

(** ** Traces *)

(** The calls a trace issues, in order. *)
Definition issued (evs : Trace) : list Call :=
  omap (fun e => match e with Issued c => Some c | Settled _ _ => None end) evs.

Definition is_CreateImage (c : Call) : bool :=
  match c with CreateImage _ => true | _ => false end.
Definition is_CreateContainer (c : Call) : bool :=
  match c with CreateContainer _ => true | _ => false end.
Definition is_ContainerStart (c : Call) : bool :=
  match c with ContainerStart _ => true | _ => false end.
Definition is_ContainerRemove (c : Call) : bool :=
  match c with ContainerRemove _ _ => true | _ => false end.

(** How many of the calls a trace issues satisfy [p]. *)
Definition count_issued (p : Call -> bool) (evs : Trace) : nat :=
  length (List.filter p (issued evs)).

(** A call that settled without an error and without a value. *)
Definition done (c : Call) : Event := Settled c (Resolved VUndefined).

(** A container that the runtime created for the options [o]. *)
Definition created (o : ContainerOptions) (c : Container) : Event :=
  Settled (CreateContainer o) (Resolved (VContainer c)).

Definition is_ListContainers (c : Call) : bool :=
  match c with ListContainers _ => true | _ => false end.

(** [Promise.all] of two promises: one of them settles first ([first]
    tells whether it is the first of the two); a rejection ends the wait,
    two resolutions give the two values in call order. *)
Inductive all2_run {A} (p1 p2 : Promise A) (h : Trace)
  : Trace -> Result (list A) -> Prop :=
| all2_rejected_first (first : bool) l e :
    let x := if first then p1 else p2 in
    settle x h = (l, Rejected e) ->
    all2_run p1 p2 h [Settled (call x) l] (Rejected e)
| all2_rejected_second (first : bool) lx a ly e :
    let x := if first then p1 else p2 in
    let y := if first then p2 else p1 in
    settle x h = (lx, Resolved a) ->
    settle y (h ++ [Settled (call x) lx]) = (ly, Rejected e) ->
    all2_run p1 p2 h [Settled (call x) lx; Settled (call y) ly] (Rejected e)
| all2_resolved (first : bool) lx a ly b :
    let x := if first then p1 else p2 in
    let y := if first then p2 else p1 in
    settle x h = (lx, Resolved a) ->
    settle y (h ++ [Settled (call x) lx]) = (ly, Resolved b) ->
    all2_run p1 p2 h [Settled (call x) lx; Settled (call y) ly]
      (Resolved (if first then [a; b] else [b; a])).

(** ** The runs of [_start] *)

Section StartShapes.

Variable this : DockerExecutor.
Variable piecesParts : DockerParseImage.ParsedImage.
Variable config : Config.

(** The five calls of a build. *)
Definition pullLauncher : Call := CreateImage (launcherImageOptions this).
Definition pullBuild : Call := CreateImage (buildImageOptions piecesParts).
Definition createLauncher : Call :=
  CreateContainer (launchContainerOptions this config).
Definition createBuild (launchContainer : Container) : Call :=
  CreateContainer (buildContainerOptions this config launchContainer).

(** The two pulls in the order they settled. *)
Definition pulls_in_order (x y : Call) : Prop :=
  (x = pullLauncher /\ y = pullBuild) \/ (x = pullBuild /\ y = pullLauncher).

(** Every run of [_start] has one of six shapes: a pull rejects (before or
    after the other has resolved), or the creation of the support container
    rejects, or the creation of the build container, or its start, or all
    five calls resolve. *)
Inductive start_run : Trace -> Result unit -> Prop :=
| run_pull_rejected x y e :
    pulls_in_order x y ->
    start_run
      [Issued pullLauncher; Issued pullBuild; Settled x (Rejected e)]
      (Rejected e)
| run_other_pull_rejected x y e :
    pulls_in_order x y ->
    start_run
      [Issued pullLauncher; Issued pullBuild; done x; Settled y (Rejected e)]
      (Rejected e)
| run_launcher_rejected x y e :
    pulls_in_order x y ->
    start_run
      [Issued pullLauncher; Issued pullBuild; done x; done y;
       Issued createLauncher; Settled createLauncher (Rejected e)]
      (Rejected e)
| run_build_rejected x y c1 e :
    pulls_in_order x y ->
    start_run
      [Issued pullLauncher; Issued pullBuild; done x; done y;
       Issued createLauncher;
       created (launchContainerOptions this config) c1;
       Issued (createBuild c1); Settled (createBuild c1) (Rejected e)]
      (Rejected e)
| run_start_rejected x y c1 c2 e :
    pulls_in_order x y ->
    start_run
      [Issued pullLauncher; Issued pullBuild; done x; done y;
       Issued createLauncher;
       created (launchContainerOptions this config) c1;
       Issued (createBuild c1);
       created (buildContainerOptions this config c1) c2;
       Issued (ContainerStart c2); Settled (ContainerStart c2) (Rejected e)]
      (Rejected e)
| run_started x y c1 c2 :
    pulls_in_order x y ->
    start_run
      [Issued pullLauncher; Issued pullBuild; done x; done y;
       Issued createLauncher;
       created (launchContainerOptions this config) c1;
       Issued (createBuild c1);
       created (buildContainerOptions this config c1) c2;
       Issued (ContainerStart c2); done (ContainerStart c2)]
      (Resolved tt).

End StartShapes.

(** ** The calls of [_stop] *)

Section StopCalls.

Variable rt : Runtime.
Variable this : DockerExecutor.

(** The call that removes a container, and its promise. *)
Definition removeCall (c : Container) : Call :=
  ContainerRemove c {| v := true; force := true |}.

Definition removePromise (c : Container) : Promise unit :=
  {| call := removeCall c;
     settle := fun h =>
       (Result_map (fun _ => VUndefined)
          (remove rt h c {| v := true; force := true |}),
        remove rt h c {| v := true; force := true |}) |}.

(** The query of [_findContainers]. *)
Definition findQuery (buildId : Z) : Call := ListContainers (listArgs this buildId).

End StopCalls.

(** ** The timeout annotation *)

(** The annotation that sets the timeout of a build, when there is one. *)
Definition timeout_annotation (config : Config) : option JsValue :=
  match annotations config with
  | Some m => m !! "screwdriver.cd/timeout"
  | None => None
  end.

(** [Number.isSafeInteger]: the integers a [Number] holds exactly, each
    of them printed in plain decimal. *)
Definition isSafeInteger (z : Z) : bool := (Z.abs z <? 2 ^ 53)%Z.

(** The build request without its timeout annotation. *)
Definition without_timeout (config : Config) : Config :=
  {| buildId := buildId config;
     container := container config;
     token := token config;
     annotations := delete "screwdriver.cd/timeout" <$> annotations config |}.

(** ** A build request, and runtimes to run it on *)

Module Example.

Definition executor : DockerExecutor :=
  constructor
    {| Options.ecosystem := {| api := "api"; store := "store"; ui := "ui" |};
       Options.launchVersion := None;
       Options.launchImage := None;
       Options.prefix := None |}.

Definition config : Config :=
  {| buildId := 1992;
     container := "node:6";
     token := "123456";
     annotations := None |}.

(** A runtime that accepts every call; a created container gets its name
    as its id, the list query finds [found], and of the calls in flight
    the last one issued settles first. *)
Definition runtime (found : list ContainerInfo) : Runtime :=
  {| createImage := fun _ _ => Resolved tt;
     createContainer := fun _ o => Resolved {| id := name o |};
     start := fun _ _ => Resolved tt;
     remove := fun _ _ _ => Resolved tt;
     listContainers := fun _ _ => Resolved found;
     next := fun _ n => n |}.

(** The same runtime with a daemon that refuses to create a container
    once [n] events have happened. *)
Definition runtime_create_fails (n : nat) : Runtime :=
  {| createImage := fun _ _ => Resolved tt;
     createContainer := fun h o =>
       if Nat.leb n (length h) then Rejected "Unable to create container"
       else Resolved {| id := name o |};
     start := fun _ _ => Resolved tt;
     remove := fun _ _ _ => Resolved tt;
     listContainers := fun _ _ => Resolved [];
     next := fun _ _ => 0 |}.

(** The same runtime with a daemon that cannot start a container. *)
Definition runtime_start_fails : Runtime :=
  {| createImage := fun _ _ => Resolved tt;
     createContainer := fun _ o => Resolved {| id := name o |};
     start := fun _ _ => Rejected "Unable to start container";
     remove := fun _ _ _ => Resolved tt;
     listContainers := fun _ _ => Resolved [];
     next := fun _ _ => 0 |}.

(** The run of [_start] for [config] on the runtime [rt]. *)
Definition run (rt : Runtime) : Trace * Result unit :=
  match _start DockerParseImage.parse rt executor config with
  | Some m => m []
  | None => ([], Rejected "TypeError")
  end.

(** The same request with the annotation [screwdriver.cd/timeout] set to
    [value], and the run of [_start] for it on a runtime where every call
    succeeds. *)
Definition request (value : JsValue) : Config :=
  {| buildId := 1992;
     container := "node:6";
     token := "123456";
     annotations := Some {[ "screwdriver.cd/timeout" := value ]} |}.

(** The command of the build container of that request, for a timeout
    printed as [minutes]. *)
Definition command (minutes : string) : list string :=
  [ "/opt/sd/run.sh " +:+ String Js.dquote ("123456" +:+ Js.str Js.dquote)
    +:+ " api store " +:+ minutes +:+ " 1992 ui" ].

Definition run_request (value : JsValue) : Trace * Result unit :=
  match _start DockerParseImage.parse (runtime []) executor (request value) with
  | Some m => m []
  | None => ([], Rejected "TypeError")
  end.

End Example.

(** ** Settlements *)

(** The calls a trace settles, in order. *)
Definition settled (evs : Trace) : list Call :=
  omap (fun e => match e with Settled c _ => Some c | Issued _ => None end) evs.

(** The errors a trace holds, in order. *)
Definition rejections (evs : Trace) : list Error :=
  omap (fun e =>
          match e with
          | Settled _ (Rejected err) => Some err
          | _ => None
          end) evs.

(** ** More runtimes *)

Module Scenario.

(** A registry that does not have the image [missing]; of two calls in
    flight the one at [first] settles first. *)
Definition runtime_pull_fails (missing : string) (first : nat) : Runtime :=
  {| createImage := fun _ o =>
       if String.eqb (fromImage o) missing then Rejected "Unable to pull image"
       else Resolved tt;
     createContainer := fun _ o => Resolved {| id := name o |};
     start := fun _ _ => Resolved tt;
     remove := fun _ _ _ => Resolved tt;
     listContainers := fun _ _ => Resolved [];
     next := fun _ _ => first |}.

(** A daemon that finds [found] and cannot remove the container [stuck]. *)
Definition runtime_remove_fails (found : list ContainerInfo) (stuck : string)
  : Runtime :=
  {| createImage := fun _ _ => Resolved tt;
     createContainer := fun _ o => Resolved {| id := name o |};
     start := fun _ _ => Resolved tt;
     remove := fun _ c _ =>
       if String.eqb (id c) stuck then Rejected "Unable to remove container"
       else Resolved tt;
     listContainers := fun _ _ => Resolved found;
     next := fun _ _ => 0 |}.

End Scenario.

(** ** Promises that log what they yield *)

(** A promise is coherent when the event it logs tells its outcome: an
    error is logged as that error, a value as a value.  The promises of
    [runCommand] are, and stay so under [then]. *)
Definition coherent {A} (p : Promise A) : Prop :=
  forall h,
    match settle p h with
    | (Resolved _, Resolved _) => True
    | (Rejected e, Rejected e') => e = e'
    | _ => False
    end.

(** ** Reading strings from the end, and reading an escape back *)

Fixpoint last_char (s : string) : option ascii :=
  match s with
  | EmptyString => None
  | String c EmptyString => Some c
  | String _ s' => last_char s'
  end.

(** The character that [JSON.escape] wrote at the head of [s], and what
    follows it. *)
Definition unescape_head (s : string) : option (ascii * string) :=
  match s with
  | EmptyString => None
  | String c r =>
      if Ascii.eqb c Js.backslash then
        match r with
        | String "u" (String "0" (String "0" (String x (String y r')))) =>
            let digit d :=
              let n := nat_of_ascii d in
              if Nat.leb 97 n then n - 87 else n - 48 in
            Some (ascii_of_nat (16 * digit x + digit y), r')
        | String k r' =>
            Some (if Ascii.eqb k "b" then "008"%char
                  else if Ascii.eqb k "t" then "009"%char
                  else if Ascii.eqb k "n" then "010"%char
                  else if Ascii.eqb k "f" then "012"%char
                  else if Ascii.eqb k "r" then "013"%char
                  else k, r')
        | EmptyString => None
        end
      else Some (c, r)
  end.


(** ** Waiting for promises *)

(** The promises still to settle, their keys and their calls. *)
Definition keys {A} (pending : list (nat * Promise A)) : list nat :=
  map fst pending.

Definition calls {A} (pending : list (nat * Promise A)) : list Call :=
  map (fun kp => call (snd kp)) pending.

(** ** Colons in a name *)

Definition no_colon (s : string) : bool :=
  Js.forallb (fun x => negb (Ascii.eqb x ":")) s.

(** The short name the parser builds, without its tag. *)
Definition short_name (p : DockerParseImage.ParsedImage) : string :=
  with_slash (DockerParseImage.registry p)
  +:+ short_namespace (DockerParseImage.namespace p)
  +:+ DockerParseImage.repository p.

(** The text the parser read before the tag. *)
Definition long_name (p : DockerParseImage.ParsedImage) : string :=
  with_slash (DockerParseImage.registry p)
  +:+ with_slash (DockerParseImage.namespace p)
  +:+ DockerParseImage.repository p.

Definition no_at (s : string) : bool :=
  Js.forallb (fun x => negb (Ascii.eqb x "@")) s.
(** * Properties *)

(** ** Strings: [span], [split], [join] *)

Section StringFacts.

Lemma append_nil_r (s : string) : s +:+ EmptyString = s.
Proof. induction s as [|c s IH]; simpl; [reflexivity | now rewrite IH]. Qed.

Lemma append_assoc (a b c : string) : (a +:+ b) +:+ c = a +:+ (b +:+ c).
Proof. induction a as [|x a IH]; simpl; [reflexivity | now rewrite IH]. Qed.

Lemma append_cancel_l (a b c : string) : a +:+ b = a +:+ c -> b = c.
Proof.
  induction a as [|x a IH]; simpl; intros H; [exact H |].
  injection H as H. auto.
Qed.

Lemma forallb_append p (a b : string) :
  Js.forallb p (a +:+ b) = Js.forallb p a && Js.forallb p b.
Proof.
  induction a as [|x a IH]; simpl; [reflexivity |].
  rewrite IH. now rewrite andb_assoc.
Qed.

Lemma span_all p (a : string) :
  Js.forallb p a = true -> Js.span p a = (a, EmptyString).
Proof.
  induction a as [|x a IH]; simpl; [reflexivity |].
  intros [Hx Ha]%andb_true_iff. rewrite Hx, (IH Ha). reflexivity.
Qed.

Lemma span_stop p (a : string) c r :
  Js.forallb p a = true -> p c = false ->
  Js.span p (a +:+ String c r) = (a, String c r).
Proof.
  induction a as [|x a IH]; simpl; intros Ha Hc.
  - now rewrite Hc.
  - apply andb_true_iff in Ha as [Hx Ha]. rewrite Hx, (IH Ha Hc). reflexivity.
Qed.

(** What [span] returns: the two parts, the first within [p], the second
    empty or headed by a character outside [p]. *)
Lemma span_inv p (s a r : string) :
  Js.span p s = (a, r) ->
  s = a +:+ r /\ Js.forallb p a = true /\
  match r with EmptyString => True | String c _ => p c = false end.
Proof.
  revert a r. induction s as [|x s IH]; simpl; intros a r H.
  - injection H as <- <-. auto.
  - destruct (p x) eqn:Hx.
    + destruct (Js.span p s) as [a' r'] eqn:Hs.
      injection H as <- <-.
      destruct (IH _ _ eq_refl) as (-> & Ha & Hr).
      simpl. rewrite Hx. auto.
    + injection H as <- <-. simpl. rewrite Hx. auto.
Qed.

Lemma split_no_sep c (s : string) :
  Js.forallb (fun x => negb (Ascii.eqb x c)) s = true -> Js.split c s = [s].
Proof.
  induction s as [|x s IH]; simpl; [reflexivity |].
  intros [Hx Hs]%andb_true_iff. apply negb_true_iff in Hx.
  rewrite Hx, (IH Hs). reflexivity.
Qed.

Lemma split_not_nil c (s : string) : Js.split c s <> [].
Proof.
  destruct s as [|x s]; simpl; [discriminate |].
  destruct (Ascii.eqb x c); discriminate.
Qed.

(** Splitting at a separator splits the pieces on each side of it. *)
Lemma split_append c (a b : string) :
  Js.split c (a +:+ String c b) = Js.split c a ++ Js.split c b.
Proof.
  induction a as [|x a IH]; simpl.
  - now rewrite Ascii.eqb_refl.
  - rewrite IH. destruct (Ascii.eqb x c); [reflexivity |].
    pose proof (split_not_nil c a) as Hne.
    destruct (Js.split c a) as [|y l]; [contradiction | reflexivity].
Qed.

Lemma join_split c (s : string) : Js.join (Js.str c) (Js.split c s) = s.
Proof.
  induction s as [|x s IH]; [reflexivity |].
  simpl Js.split. pose proof (split_not_nil c s) as Hne.
  destruct (Js.split c s) as [|y l]; [contradiction |].
  destruct (Ascii.eqb_spec x c) as [-> | Hxc].
  - change (Js.join (Js.str c) (EmptyString :: y :: l))
      with (String c (Js.join (Js.str c) (y :: l))).
    now rewrite IH.
  - simpl hd. simpl tl. destruct l as [|z l].
    + simpl in *. now rewrite IH.
    + change (Js.join (Js.str c) (String x y :: z :: l))
        with (String x (Js.join (Js.str c) (y :: z :: l))).
      now rewrite IH.
Qed.

(** [s.split(c)], [pop()], [join(c)] removes the last [c] and what follows
    it, when what follows holds no [c]. *)
Lemma split_pop_join c (base t : string) :
  Js.forallb (fun x => negb (Ascii.eqb x c)) t = true ->
  Js.join (String c EmptyString) (Js.pop (Js.split c (base +:+ String c t)))
  = base.
Proof.
  intros Ht. rewrite split_append, (split_no_sep _ _ Ht).
  unfold Js.pop. rewrite removelast_last. apply join_split.
Qed.

End StringFacts.

(** ** The image reference grammar *)

Section ParserFacts.

Import DockerParseImage Reference.

Lemma forallb_impl (p q : ascii -> bool) (s : string) :
  (forall c, p c = true -> q c = true) ->
  Js.forallb p s = true -> Js.forallb q s = true.
Proof.
  intros Hpq. induction s as [|c s IH]; simpl; [reflexivity |].
  intros [Hc Hs]%andb_true_iff. rewrite (Hpq _ Hc), (IH Hs). reflexivity.
Qed.

Lemma repo_char_no_slash c : is_repo_char c = true -> negb (is_slash c) = true.
Proof.
  unfold is_repo_char. destruct (is_tag_sep c), (is_slash c); simpl; congruence.
Qed.

Lemma repo_name_no_slash r : repo_name r = true -> no_slash r = true.
Proof.
  intros [_ H]%andb_true_iff. revert H. apply forallb_impl, repo_char_no_slash.
Qed.

Lemma tag_name_no_slash t : tag_name t = true -> no_slash t = true.
Proof.
  intros [_ H]%andb_true_iff. revert H. apply forallb_impl.
  unfold tag_char. intros c [_ H]%andb_true_iff. exact H.
Qed.

Lemma tag_name_dot_chars t :
  tag_name t = true -> Js.forallb is_dot_char t = true.
Proof.
  intros [_ H]%andb_true_iff. revert H. apply forallb_impl.
  unfold tag_char. intros c [[H _]%andb_true_iff _]%andb_true_iff. exact H.
Qed.

Lemma tag_name_no_colon t :
  tag_name t = true ->
  Js.forallb (fun x => negb (Ascii.eqb x ":")) t = true.
Proof.
  intros [_ H]%andb_true_iff. revert H. apply forallb_impl.
  unfold tag_char. intros c [[_ H]%andb_true_iff _]%andb_true_iff. exact H.
Qed.

Lemma segment_intro (a r : string) :
  segment_name a = true -> segment (a +:+ "/" +:+ r) = Some (a, r).
Proof.
  intros [Hne Hns]%andb_true_iff. unfold segment.
  change ("/" +:+ r) with (String "/" r).
  rewrite (span_stop _ a "/" r Hns eq_refl).
  destruct a; [discriminate | reflexivity].
Qed.

Lemma segment_no_slash (s : string) : no_slash s = true -> segment s = None.
Proof.
  intros H. unfold segment. rewrite (span_all _ _ H). now destruct s.
Qed.

Lemma segment_inv (s a r : string) :
  segment s = Some (a, r) -> s = a +:+ "/" +:+ r /\ segment_name a = true.
Proof.
  unfold segment. destruct (Js.span _ s) as [a' r'] eqn:Hs.
  destruct a' as [|c a']; [discriminate |].
  destruct r' as [|x r']; [discriminate |].
  intros [= <- <-]. apply span_inv in Hs as (-> & Ha & Hx).
  apply negb_false_iff, Ascii.eqb_eq in Hx as ->.
  split; [reflexivity |]. unfold segment_name, no_slash. now rewrite Ha.
Qed.

Lemma repo_tag_plain (repo : string) :
  repo_name repo = true -> repo_tag repo = Some (repo, None).
Proof.
  intros [Hne Hr]%andb_true_iff. unfold repo_tag.
  rewrite (span_all _ _ Hr). now destruct repo.
Qed.

Lemma repo_tag_tagged (repo t : string) :
  repo_name repo = true -> Js.is_empty t = false ->
  Js.forallb is_dot_char t = true ->
  repo_tag (repo +:+ ":" +:+ t) = Some (repo, Some t).
Proof.
  intros [Hne Hr]%andb_true_iff Ht Hd. unfold repo_tag.
  change (":" +:+ t) with (String ":" t).
  rewrite (span_stop _ repo ":" t Hr eq_refl).
  destruct repo; [discriminate |]. destruct t; [discriminate |].
  rewrite Hd. reflexivity.
Qed.

Lemma repo_tag_inv_plain (s repo : string) :
  repo_tag s = Some (repo, None) -> s = repo /\ repo_name repo = true.
Proof.
  unfold repo_tag. destruct (Js.span is_repo_char s) as [a r] eqn:Hs.
  destruct a as [|c a]; [discriminate |].
  destruct r as [|x [|y r]]; try discriminate.
  - intros [= <-]. apply span_inv in Hs as (-> & Ha & _).
    rewrite append_nil_r. split; [reflexivity |].
    unfold repo_name. now rewrite Ha.
  - destruct (_ && _); discriminate.
Qed.

(** A reference that is a bare repository name has no leading segment. *)
Lemma repo_tag_plain_segment (s repo : string) :
  repo_tag s = Some (repo, None) -> segment s = None.
Proof.
  intros [-> H]%repo_tag_inv_plain.
  now apply segment_no_slash, repo_name_no_slash.
Qed.

(** A match without a tag reads the reference as its segments followed by
    the repository, and the groups are filled from the left. *)
Lemma regex_match_inv_plain (s : string) g1 g2 repo :
  regex_match s = Some (g1, g2, repo, None) ->
  s = with_slash g1 +:+ with_slash g2 +:+ repo /\
  repo_name repo = true /\
  (forall a, g1 = Some a -> segment_name a = true) /\
  (forall b, g2 = Some b -> segment_name b = true) /\
  (g1 = None -> g2 = None).
Proof.
  unfold regex_match.
  destruct (segment s) as [[a r1]|] eqn:H1.
  - destruct (segment r1) as [[b r2]|] eqn:H2.
    + destruct (repo_tag r2) as [[g3 g4]|] eqn:H3.
      * intros [= <- <- <- ->].
        apply segment_inv in H1 as (-> & Ha), H2 as (-> & Hb).
        apply repo_tag_inv_plain in H3 as (-> & Hr). simpl.
        rewrite !append_assoc.
        repeat split; try congruence; intros ? [= <-]; assumption.
      * destruct (repo_tag r1) as [[g3 g4]|] eqn:H4.
        -- intros [= <- <- <- ->].
           apply repo_tag_plain_segment in H4. congruence.
        -- destruct (repo_tag s) as [[g3 g4]|] eqn:H5; [|discriminate].
           intros [= <- <- <- ->].
           apply repo_tag_plain_segment in H5. congruence.
    + destruct (repo_tag r1) as [[g3 g4]|] eqn:H4.
      * intros [= <- <- <- ->].
        apply segment_inv in H1 as (-> & Ha).
        apply repo_tag_inv_plain in H4 as (-> & Hr). simpl.
        rewrite !append_assoc.
        repeat split; try congruence; intros ? [= <-]; assumption.
      * destruct (repo_tag s) as [[g3 g4]|] eqn:H5; [|discriminate].
        intros [= <- <- <- ->].
        apply repo_tag_plain_segment in H5. congruence.
  - destruct (repo_tag s) as [[g3 g4]|] eqn:H5; [|discriminate].
    intros [= <- <- <- ->].
    apply repo_tag_inv_plain in H5 as (-> & Hr). simpl.
    repeat split; try congruence; intros ? [= <-].
Qed.

(** The groups of a reference written as segments, a repository and a
    tag that holds no slash. *)
Lemma regex_match_intro g1 g2 (repo t : string) :
  (forall a, g1 = Some a -> segment_name a = true) ->
  (forall b, g2 = Some b -> segment_name b = true) ->
  (g1 = None -> g2 = None) ->
  repo_name repo = true ->
  Js.is_empty t = false -> Js.forallb is_dot_char t = true ->
  no_slash t = true ->
  regex_match (with_slash g1 +:+ with_slash g2 +:+ repo +:+ ":" +:+ t)
  = Some (g1, g2, repo, Some t).
Proof.
  intros H1 H2 H12 Hr Hne Hd Hs.
  assert (Hrt : repo_tag (repo +:+ ":" +:+ t) = Some (repo, Some t))
    by now apply repo_tag_tagged.
  assert (Hseg : segment (repo +:+ ":" +:+ t) = None).
  { apply segment_no_slash. unfold no_slash.
    change (":" +:+ t) with (String ":" t).
    rewrite forallb_append. simpl.
    apply repo_name_no_slash in Hr. unfold no_slash in Hr, Hs.
    now rewrite Hr, Hs. }
  destruct g1 as [a|].
  - destruct g2 as [b|].
    + change (regex_match ((a +:+ "/") +:+ (b +:+ "/") +:+ repo +:+ ":" +:+ t)
              = Some (Some a, Some b, repo, Some t)).
      rewrite !append_assoc. unfold regex_match.
      rewrite (segment_intro a _ (H1 _ eq_refl)).
      rewrite (segment_intro b _ (H2 _ eq_refl)). now rewrite Hrt.
    + change (regex_match ((a +:+ "/") +:+ repo +:+ ":" +:+ t)
              = Some (Some a, None, repo, Some t)).
      rewrite !append_assoc. unfold regex_match.
      rewrite (segment_intro a _ (H1 _ eq_refl)). now rewrite Hseg, Hrt.
  - rewrite (H12 eq_refl).
    change (regex_match (repo +:+ ":" +:+ t) = Some (None, None, repo, Some t)).
    unfold regex_match. now rewrite Hseg, Hrt.
Qed.

End ParserFacts.

(** ** Asynchronous computations, step by step *)

Section AsyncFacts.

Context {A B : Type}.

Lemma bind_run (m : Async A) (f : A -> Async B) h evs r :
  bind m f h = (evs, r) ->
  match m h with
  | (e1, Resolved a) => exists e2, f a (h ++ e1) = (e2, r) /\ evs = e1 ++ e2
  | (e1, Rejected e) => evs = e1 /\ r = Rejected e
  end.
Proof.
  unfold bind. destruct (m h) as [e1 [a|e]].
  - destruct (f a (h ++ e1)) as [e2 r2]. intros [= <- <-]. eauto.
  - intros [= <- <-]. auto.
Qed.

(** A call that is issued and waited for: either it resolves and the chain
    goes on, or it rejects and the chain ends there. *)
Lemma and_then_run c (answer : Trace -> Result A) inj (f : A -> Async B)
    h evs r :
  and_then (runCommand c answer inj) f h = (evs, r) ->
  match answer (h ++ [Issued c]) with
  | Resolved a =>
      exists e2,
        f a ((h ++ [Issued c]) ++ [Settled c (Resolved (inj a))]) = (e2, r) /\
        evs = Issued c :: Settled c (Resolved (inj a)) :: e2
  | Rejected e => evs = [Issued c; Settled c (Rejected e)] /\ r = Rejected e
  end.
Proof.
  unfold and_then, runCommand, await, bind. simpl.
  destruct (answer (h ++ [Issued c])) as [a|e]; simpl.
  - destruct (f a _) as [e2 r2]. intros [= <- <-]. eauto.
  - intros [= <- <-]. auto.
Qed.

End AsyncFacts.

Lemma extract_nil {A} i (x : A) : extract i x [] = (x, []).
Proof. now destruct i. Qed.

Lemma Promise_all_two rt {A} (p1 p2 : Promise A) h evs r :
  Promise_all rt [p1; p2] h = (evs, r) -> all2_run p1 p2 h evs r.
Proof.
  unfold Promise_all. intros H. apply bind_run in H. revert H.
  cbn [length imap settle_all].
  destruct (next rt h 2) as [|n]; cbn [extract]; [|rewrite extract_nil];
    unfold await, bind, ret; simpl.
  - destruct (settle p1 h) as [l1 [a|e]] eqn:H1.
    + rewrite extract_nil.
      destruct (settle p2 _) as [l2 [b|e]] eqn:H2; simpl.
      * intros (e2 & [= <- <-] & ->).
        exact (all2_resolved p1 p2 h true l1 a l2 b H1 H2).
      * intros [-> ->].
        exact (all2_rejected_second p1 p2 h true l1 a l2 e H1 H2).
    + intros [-> ->]. exact (all2_rejected_first p1 p2 h true l1 e H1).
  - destruct (settle p2 h) as [l2 [b|e]] eqn:H2.
    + rewrite extract_nil.
      destruct (settle p1 _) as [l1 [a|e]] eqn:H1; simpl.
      * intros (e2 & [= <- <-] & ->).
        exact (all2_resolved p1 p2 h false l2 b l1 a H2 H1).
      * intros [-> ->].
        exact (all2_rejected_second p1 p2 h false l2 b l1 e H2 H1).
    + intros [-> ->]. exact (all2_rejected_first p1 p2 h false l2 e H2).
Qed.

(** ** Runs of [_start] *)

Section StartRuns.

Variable this : DockerExecutor.
Variable piecesParts : DockerParseImage.ParsedImage.
Variable config : Config.

Lemma start_chain_run rt h evs r :
  _start_chain rt this piecesParts config h = (evs, r) ->
  start_run this piecesParts config evs r.
Proof.
  unfold _start_chain, _createImage. intros H.
  apply bind_run in H. cbn [runCommand] in H. destruct H as (e2 & H & ->).
  apply bind_run in H. cbn [runCommand] in H. destruct H as (e3 & H & ->).
  apply bind_run in H. revert H.
  destruct (Promise_all _ _ _) as [ea ra] eqn:Hall.
  apply Promise_all_two in Hall.
  assert (Hord : forall first : bool,
             pulls_in_order this piecesParts
               (if first then pullLauncher this else pullBuild piecesParts)
               (if first then pullBuild piecesParts else pullLauncher this))
    by (intros []; [left | right]; auto).
  destruct Hall as [first l e x Hx | first lx a ly e x y Hx Hy
                    | first lx a ly b x y Hx Hy];
    subst x; try subst y; specialize (Hord first).
  - intros [-> ->]. destruct first; simpl in Hx.
    all: destruct (createImage rt _ _); simpl in Hx; try discriminate.
    all: injection Hx as <- <-.
    all: eapply run_pull_rejected, Hord.
  - intros [-> ->]. destruct first; simpl in Hx, Hy.
    all: destruct (createImage rt _ _); simpl in Hx; try discriminate.
    all: injection Hx as <- <-.
    all: destruct (createImage rt _ _); simpl in Hy; try discriminate.
    all: injection Hy as <- <-.
    all: eapply run_other_pull_rejected, Hord.
  - intros (e4 & H & ->). revert H. destruct first; simpl in Hx, Hy |- *.
    all: destruct (createImage rt _ _); simpl in Hx; try discriminate.
    all: injection Hx as <- <-.
    all: destruct (createImage rt _ _); simpl in Hy; try discriminate.
    all: injection Hy as <- <-.
    all: intros H.
    all: unfold _createContainer in H; apply and_then_run in H.
    all: destruct (createContainer rt _ _) as [c1|e];
      [|destruct H as [-> ->]; eapply run_launcher_rejected, Hord].
    all: destruct H as (e5 & H & ->); apply and_then_run in H.
    all: destruct (createContainer rt _ _) as [c2|e];
      [|destruct H as [-> ->]; eapply run_build_rejected, Hord].
    all: destruct H as (e6 & H & ->).
    all: unfold _startContainer in H; apply and_then_run in H.
    all: destruct (start rt _ _) as [[]|e];
      [|destruct H as [-> ->]; eapply run_start_rejected, Hord].
    all: destruct H as (e7 & [= <- <-] & ->).
    all: eapply run_started, Hord.
Qed.

End StartRuns.

(** ** A build that goes through *)

(** C1: a successful [_start] issues exactly two [createImage] calls (the
    launcher image at the configured version, then the resolved build
    image), exactly two [createContainer] calls (the support container, then
    the build container) and exactly one [start] call, on the build
    container; and the build container's [HostConfig.VolumesFrom] is the id
    the runtime gave the support container, mounted [rw]. *)
Theorem start_success_calls imageParser rt this config m h evs :
  _start imageParser rt this config = Some m ->
  m h = (evs, Resolved tt) ->
  exists piecesParts launchContainer buildContainer,
    imageParser (container config) = Some piecesParts /\
    issued evs =
      [ CreateImage
          {| fromImage := launchImage this; tag := launchVersion this |};
        CreateImage
          {| fromImage := fst (buildImageTag piecesParts);
             tag := snd (buildImageTag piecesParts) |};
        CreateContainer (launchContainerOptions this config);
        CreateContainer (buildContainerOptions this config launchContainer);
        ContainerStart buildContainer ] /\
    count_issued is_CreateImage evs = 2 /\
    count_issued is_CreateContainer evs = 2 /\
    count_issued is_ContainerStart evs = 1 /\
    In (created (launchContainerOptions this config) launchContainer) evs /\
    In (created (buildContainerOptions this config launchContainer)
          buildContainer) evs /\
    option_map VolumesFrom
      (HostConfig (buildContainerOptions this config launchContainer))
    = Some [id launchContainer +:+ ":rw"].
Proof.
  unfold _start. destruct (imageParser (container config)) as [pieces|] eqn:Hp;
    [|discriminate].
  intros [= <-] Hrun. apply start_chain_run in Hrun.
  inversion Hrun as [ | | | | | x y c1 c2 Hord Hevs]; subst.
  exists pieces, c1, c2.
  split; [reflexivity |].
  repeat split; simpl; auto 10.
Qed.

Lemma start_success_calls_witness :
  exists piecesParts launchContainer buildContainer,
    DockerParseImage.parse "node:6" = Some piecesParts /\
    issued (fst (Example.run (Example.runtime []))) =
      [ CreateImage {| fromImage := "screwdrivercd/launcher"; tag := "stable" |};
        CreateImage
          {| fromImage := fst (buildImageTag piecesParts);
             tag := snd (buildImageTag piecesParts) |};
        CreateContainer
          (launchContainerOptions Example.executor Example.config);
        CreateContainer
          (buildContainerOptions Example.executor Example.config
             launchContainer);
        ContainerStart buildContainer ] /\
    count_issued is_CreateImage (fst (Example.run (Example.runtime []))) = 2 /\
    count_issued is_CreateContainer (fst (Example.run (Example.runtime []))) = 2 /\
    count_issued is_ContainerStart (fst (Example.run (Example.runtime []))) = 1 /\
    In (created (launchContainerOptions Example.executor Example.config)
          launchContainer) (fst (Example.run (Example.runtime []))) /\
    In (created
          (buildContainerOptions Example.executor Example.config
             launchContainer) buildContainer)
       (fst (Example.run (Example.runtime []))) /\
    option_map VolumesFrom
      (HostConfig
         (buildContainerOptions Example.executor Example.config
            launchContainer))
    = Some [id launchContainer +:+ ":rw"].
Proof.
  eapply (start_success_calls DockerParseImage.parse (Example.runtime [])
            Example.executor Example.config _ []); reflexivity.
Defined.

(** ** The image pulled for a reference *)

Section ResolveFacts.

Import DockerParseImage Reference.

(** The parser on [first/repo:tag]: the short name is the reference, when
    the first segment is a registry host, or a namespace other than
    [library]. *)
Lemma parse_segment_tag (first repo t : string) :
  segment_name first = true ->
  Js.existsb is_colon_or_dot first = true \/ first <> "library" ->
  repo_name repo = true -> tag_name t = true -> t <> "latest" ->
  exists p,
    parse (first +:+ "/" +:+ repo +:+ ":" +:+ t) = Some p /\
    DockerParseImage.tag p = Some t /\
    DockerParseImage.name p = (first +:+ "/" +:+ repo) +:+ ":" +:+ t.
Proof.
  intros Hseg Hfirst Hrepo Htag Hlatest.
  assert (Hm : regex_match (first +:+ "/" +:+ repo +:+ ":" +:+ t)
               = Some (Some first, None, repo, Some t)).
  { rewrite <- (append_assoc first "/").
    apply (regex_match_intro (Some first) None repo t).
    - now intros a [= <-].
    - intros b [=].
    - reflexivity.
    - exact Hrepo.
    - apply andb_true_iff in Htag as [Hne _]. now apply negb_true_iff.
    - now apply tag_name_dot_chars.
    - now apply tag_name_no_slash. }
  unfold parse. rewrite Hm.
  apply String.eqb_neq in Hlatest.
  destruct (Js.existsb is_colon_or_dot first) eqn:Hhost; simpl negb; cbv iota.
  - rewrite Hlatest. eexists. split; [reflexivity |]. simpl.
    split; [reflexivity |]. now rewrite !append_assoc.
  - destruct Hfirst as [? | Hlib]; [discriminate |].
    apply String.eqb_neq in Hlib. rewrite Hlib, Hlatest.
    eexists. split; [reflexivity |]. simpl.
    split; [reflexivity |]. now rewrite !append_assoc.
Qed.

Lemma buildImageTag_tagged p (base t : string) :
  DockerParseImage.tag p = Some t -> t <> "latest" ->
  DockerParseImage.name p = base +:+ ":" +:+ t ->
  Js.forallb (fun x => negb (Ascii.eqb x ":")) t = true ->
  buildImageTag p = (base, t).
Proof.
  intros Ht Hlatest Hname Hcolon. unfold buildImageTag.
  rewrite Ht. apply String.eqb_neq in Hlatest. rewrite Hlatest. simpl negb.
  cbv iota. rewrite Hname. change (":" +:+ t) with (String ":" t).
  now rewrite (split_pop_join ":" base t Hcolon).
Qed.

Lemma buildImageTag_untagged p :
  DockerParseImage.tag p = None \/ DockerParseImage.tag p = Some "latest" ->
  buildImageTag p = (DockerParseImage.name p, "latest").
Proof.
  unfold buildImageTag. now intros [-> | ->].
Qed.

End ResolveFacts.

(** Every run of [_start] issues the pull of the build image. *)
Lemma start_pulls_build_image imageParser rt this config piecesParts :
  imageParser (container config) = Some piecesParts ->
  exists m,
    _start imageParser rt this config = Some m /\
    forall h,
      In (Issued (CreateImage (buildImageOptions piecesParts))) (fst (m h)).
Proof.
  intros Hp. unfold _start. rewrite Hp. eexists. split; [reflexivity |].
  intros h. destruct (_start_chain _ _ _ _ h) as [evs r] eqn:Hrun.
  apply start_chain_run in Hrun.
  destruct Hrun; simpl; auto.
Qed.

(** C2: for a reference [host[:port]/repo:tag] whose tag is not [latest],
    the image [_start] pulls has as repository the reference with only the
    trailing [:tag] removed, with no namespace segment put in, and as tag the
    one of the reference; so ["host:1111/someImage:v2"] gives the repository
    ["host:1111/someImage"] and the tag ["v2"]. *)
Theorem resolve_registry_reference (host repo t : string) :
  Reference.registry_host host = true ->
  Reference.repo_name repo = true ->
  Reference.tag_name t = true ->
  t <> "latest" ->
  let reference := host +:+ "/" +:+ repo +:+ ":" +:+ t in
  resolve DockerParseImage.parse reference = Some (host +:+ "/" +:+ repo, t) /\
  forall rt this config,
    container config = reference ->
    exists m,
      _start DockerParseImage.parse rt this config = Some m /\
      forall h,
        In (Issued
              (CreateImage {| fromImage := host +:+ "/" +:+ repo; tag := t |}))
           (fst (m h)).
Proof.
  intros Hhost Hrepo Htag Hlatest reference.
  apply andb_true_iff in Hhost as [Hseg Hhost].
  destruct (parse_segment_tag host repo t Hseg (or_introl Hhost) Hrepo Htag
              Hlatest)
    as (p & Hp & Ht & Hname).
  assert (Hb : buildImageTag p = (host +:+ "/" +:+ repo, t)).
  { exact (buildImageTag_tagged p _ t Ht Hlatest Hname
             (tag_name_no_colon t Htag)). }
  split.
  - unfold resolve, reference. rewrite Hp. simpl. now rewrite Hb.
  - intros rt this config Hc.
    destruct (start_pulls_build_image DockerParseImage.parse rt this config p)
      as (m & Hm & Hin); [now rewrite Hc |].
    exists m. split; [exact Hm |]. intros h. specialize (Hin h).
    unfold buildImageOptions in Hin. now rewrite Hb in Hin.
Qed.

Lemma resolve_registry_reference_witness :
  resolve DockerParseImage.parse "host:1111/someImage:v2"
  = Some ("host:1111/someImage", "v2").
Proof.
  refine (proj1 (resolve_registry_reference "host:1111" "someImage" "v2"
                   eq_refl eq_refl eq_refl _)).
  discriminate.
Defined.

Section UntaggedFacts.

Import DockerParseImage Reference.

(** What the parser returns for a reference without a tag, and for the
    same reference followed by [:latest]. *)
Lemma parse_untagged (reference : string) p :
  parse reference = Some p -> DockerParseImage.tag p = None ->
  reference
  = with_slash (registry p) +:+ with_slash (namespace p) +:+ repository p /\
  DockerParseImage.name p
  = with_slash (registry p) +:+ short_namespace (namespace p) +:+ repository p /\
  exists p',
    parse (reference +:+ ":latest") = Some p' /\
    DockerParseImage.tag p' = Some "latest" /\
    DockerParseImage.name p' = DockerParseImage.name p.
Proof.
  unfold parse.
  destruct (regex_match reference) as [[[[g1 g2] repo] g4]|] eqn:Hm;
    [|discriminate].
  intros Hp Ht.
  assert (g4 = None) as ->.
  { destruct g1 as [a|], g2 as [b|]; try destruct (Js.existsb _ a);
      injection Hp as <-; exact Ht. }
  destruct (regex_match_inv_plain _ _ _ _ Hm) as (Href & Hrepo & H1 & H2 & H12).
  assert (Hm' : regex_match (reference +:+ ":latest")
                = Some (g1, g2, repo, Some "latest")).
  { rewrite Href, !append_assoc.
    now apply (regex_match_intro g1 g2 repo "latest"). }
  rewrite Hm'. clear Hm Hm' Ht.
  destruct g1 as [a|], g2 as [b|]; try (specialize (H12 eq_refl); discriminate);
    try destruct (Js.existsb is_colon_or_dot a);
    injection Hp as <-; simpl in *; rewrite ?append_nil_r in *;
    (repeat split; [exact Href |]); eexists; repeat split.
Qed.

End UntaggedFacts.

(** The same holds when the first segment is read as a namespace (no colon
    and no dot), unless that namespace is [library]: the short name leaves
    it out. *)
Lemma resolve_namespace_reference (namespace repo t : string) :
  Reference.segment_name namespace = true ->
  namespace <> "library" ->
  Reference.repo_name repo = true ->
  Reference.tag_name t = true ->
  t <> "latest" ->
  resolve DockerParseImage.parse (namespace +:+ "/" +:+ repo +:+ ":" +:+ t)
  = Some (namespace +:+ "/" +:+ repo, t).
Proof.
  intros Hseg Hlib Hrepo Htag Hlatest.
  destruct (parse_segment_tag namespace repo t Hseg (or_intror Hlib) Hrepo
              Htag Hlatest)
    as (p & Hp & Ht & Hname).
  unfold resolve. rewrite Hp. simpl.
  now rewrite (buildImageTag_tagged p _ t Ht Hlatest Hname
                 (tag_name_no_colon t Htag)).
Qed.

Lemma resolve_library_namespace_tagged :
  resolve DockerParseImage.parse "library/node:6" = Some ("node", "6").
Proof. reflexivity. Qed.




(** ** Failures of [_start] *)

(** Membership in an explicit trace, one event at a time. *)
Ltac trace_cases H :=
  unfold done, created, pullLauncher, pullBuild, createLauncher, createBuild
    in H;
  simpl in H;
  repeat match type of H with
         | _ \/ _ => destruct H as [H | H]
         | False => contradiction
         | _ = _ => first [discriminate H | injection H as H; subst]
         end.

(** An event is in an explicit trace. *)
Ltac in_trace := simpl; repeat (first [left; reflexivity | right]).

(** C4: when a [createContainer] call of [_start] fails, [_start] rejects
    with that error and never calls [start]; when the [start] call fails,
    [_start] rejects with that error; in both cases the containers created
    before the failure were created and [_start] issues no [remove] call. *)
Theorem start_failure_leaves_containers imageParser rt this config m h evs r :
  _start imageParser rt this config = Some m ->
  m h = (evs, r) ->
  count_issued is_ContainerRemove evs = 0 /\
  (forall o e,
     In (Settled (CreateContainer o) (Rejected e)) evs ->
     r = Rejected e /\
     count_issued is_ContainerStart evs = 0 /\
     (o = launchContainerOptions this config \/
      exists launchContainer,
        o = buildContainerOptions this config launchContainer /\
        In (created (launchContainerOptions this config) launchContainer) evs))
  /\
  (forall c e,
     In (Settled (ContainerStart c) (Rejected e)) evs ->
     r = Rejected e /\
     exists launchContainer,
       In (created (launchContainerOptions this config) launchContainer) evs /\
       In (created (buildContainerOptions this config launchContainer) c) evs).
Proof.
  unfold _start. destruct (imageParser (container config)) as [pieces|];
    [|discriminate].
  intros [= <-] Hrun. apply start_chain_run in Hrun.
  destruct Hrun as [x y e' Hord | x y e' Hord | x y e' Hord
                    | x y c1 e' Hord | x y c1 c2 e' Hord | x y c1 c2 Hord].
  all: split; [reflexivity |].
  all: split; [intros o e Hin | intros c e Hin].
  all: destruct Hord as [[-> ->] | [-> ->]]; trace_cases Hin.
  all: repeat split; try reflexivity.
  all: try (left; reflexivity).
  all: try (right; eexists; split; [reflexivity | in_trace]).
  all: eexists; split; in_trace.
Qed.

Lemma start_failure_leaves_containers_witness :
  let run := Example.run (Example.runtime_create_fails 6) in
  snd run = Rejected "Unable to create container" /\
  count_issued is_ContainerStart (fst run) = 0 /\
  count_issued is_ContainerRemove (fst run) = 0 /\
  In (created (launchContainerOptions Example.executor Example.config)
        {| id := "1992-init" |}) (fst run).
Proof.
  intros run.
  destruct (start_failure_leaves_containers DockerParseImage.parse
              (Example.runtime_create_fails 6) Example.executor Example.config
              _ [] (fst run) (snd run) eq_refl eq_refl)
    as (Hremove & Hcreate & _).
  destruct (Hcreate
              (buildContainerOptions Example.executor Example.config
                 {| id := "1992-init" |})
              "Unable to create container")
    as (Hr & Hstart & Hkept).
  - exact (nth_error_In (fst run) 7 eq_refl).
  - repeat split; try assumption.
    exact (nth_error_In (fst run) 5 eq_refl).
Defined.

Lemma start_rejected_example :
  let run := Example.run Example.runtime_start_fails in
  snd run = Rejected "Unable to start container" /\
  issued (fst run) =
    [ CreateImage {| fromImage := "screwdrivercd/launcher"; tag := "stable" |};
      CreateImage {| fromImage := "node"; tag := "6" |};
      CreateContainer (launchContainerOptions Example.executor Example.config);
      CreateContainer
        (buildContainerOptions Example.executor Example.config
           {| id := "1992-init" |});
      ContainerStart {| id := "1992-build" |} ].
Proof. split; reflexivity. Qed.

(** ** Runs of [_stop] *)

Lemma issued_app (a b : Trace) : issued (a ++ b) = issued a ++ issued b.
Proof. unfold issued. apply omap_app. Qed.

Lemma issued_map_Issued {A} (f : A -> Call) (l : list A) :
  issued (map (fun x => Issued (f x)) l) = map f l.
Proof. induction l as [|x l IH]; simpl; [reflexivity | now rewrite <- IH]. Qed.

Section StopRuns.

Variable rt : Runtime.
Variable this : DockerExecutor.

(** [containers.map(container => this._removeContainer(container))]: every
    removal is issued, in order, before any of them settles. *)
Lemma mapM_removeContainer (containers : list Container) h :
  mapM (_removeContainer rt) containers h
  = (map (fun c => Issued (removeCall c)) containers,
     Resolved (map (removePromise rt) containers)).
Proof.
  revert h. induction containers as [|c l IH]; intros h; [reflexivity |].
  simpl mapM. unfold bind at 1. simpl.
  unfold bind at 1. rewrite IH. unfold ret. simpl.
  now rewrite app_nil_r.
Qed.

(** Waiting for promises issues nothing. *)
Lemma settle_all_issues_nothing {A} n (pending : list (nat * Promise A))
    finished h evs r :
  settle_all rt n pending finished h = (evs, r) -> issued evs = [].
Proof.
  revert pending finished h evs r.
  induction n as [|n IH]; intros pending finished h evs r.
  - simpl. now intros [= <- <-].
  - destruct pending as [|p ps]; [simpl; now intros [= <- <-] |].
    cbn [settle_all].
    destruct (extract _ p ps) as [[k q] rest].
    intros H. apply bind_run in H. unfold await in H.
    destruct (settle q h) as [l [a|e]].
    + destruct H as (e2 & H & ->). apply IH in H.
      rewrite issued_app, H. reflexivity.
    + destruct H as [-> ->]. reflexivity.
Qed.

Lemma Promise_all_issues_nothing {A} (ps : list (Promise A)) h evs r :
  Promise_all rt ps h = (evs, r) -> issued evs = [].
Proof.
  unfold Promise_all. intros H. apply bind_run in H.
  destruct (settle_all _ _ _ _ _) as [e1 [a|e]] eqn:Hs;
    apply settle_all_issues_nothing in Hs.
  - destruct H as (e2 & [= <- <-] & ->). now rewrite app_nil_r.
  - now destruct H as [-> ->].
Qed.

(** A run of [_stop]: the query, then either its error, or one removal per
    container found, all issued before the first of them settles. *)
Lemma stop_run config h evs r :
  _stop rt this config h = (evs, r) ->
  match listContainers rt (h ++ [Issued (findQuery this (buildId config))])
          (listArgs this (buildId config)) with
  | Rejected e =>
      evs = [Issued (findQuery this (buildId config));
             Settled (findQuery this (buildId config)) (Rejected e)] /\
      r = Rejected e
  | Resolved found =>
      exists settled,
        evs = [Issued (findQuery this (buildId config));
               Settled (findQuery this (buildId config))
                 (Resolved (VContainers found))]
              ++ map (fun c => Issued (removeCall (getContainer (Id c)))) found
              ++ settled /\
        issued settled = [] /\
        (found = [] -> settled = [] /\ r = Resolved [])
  end.
Proof.
  unfold _stop, and_then, _findContainers. intros H.
  apply bind_run in H. revert H. unfold bind at 1, runCommand, ret.
  cbn [app]. intros (e2 & H & ->).
  apply bind_run in H. revert H. unfold await, Promise_then. cbn [settle call].
  unfold findQuery.
  destruct (listContainers rt _ _) as [found|e]; cbn [Result_map].
  2:{ intros [-> ->]. auto. }
  intros (e3 & H & ->). apply bind_run in H. revert H.
  rewrite mapM_removeContainer.
  intros (settled & H & ->).
  exists settled. split; [|split].
  - simpl. now rewrite map_map.
  - eapply Promise_all_issues_nothing, H.
  - intros ->. simpl in H. now injection H as <- <-.
Qed.

End StopRuns.

Lemma count_removals {A} (f : A -> Container) (l : list A) :
  length (List.filter is_ContainerRemove (map (fun x => removeCall (f x)) l))
  = length l /\
  length (List.filter is_ListContainers (map (fun x => removeCall (f x)) l))
  = 0.
Proof. induction l as [|x l [IH1 IH2]]; simpl; auto. Qed.

Lemma issued_Issued c (l : Trace) : issued (Issued c :: l) = c :: issued l.
Proof. reflexivity. Qed.

Lemma issued_Settled c a (l : Trace) : issued (Settled c a :: l) = issued l.
Proof. reflexivity. Qed.

(** C5: [_stop] first issues one [listContainers] query, filtered by the
    label ["sdbuild=" + prefix + buildId] and with [all] set; when the query
    is answered it issues one [remove] call with [{v: true, force: true}]
    for each container of the answer, in order and before any removal
    settles, and nothing else; with an empty answer it issues no removal and
    resolves. *)
Theorem stop_lists_then_removes rt this config h evs r :
  _stop rt this config h = (evs, r) ->
  let label := "sdbuild=" +:+ prefix this +:+ pretty (buildId config) in
  let query :=
    ListContainers
      {| filters :=
           JSON.stringify
             (JSON.JObject [("label", JSON.JArray [JSON.JString label])]);
         all := true |} in
  count_issued is_ListContainers evs = 1 /\
  exists answer rest,
    evs = Issued query :: Settled query answer :: rest /\
    match answer with
    | Rejected e => rest = [] /\ r = Rejected e
    | Resolved (VContainers found) =>
        let removals :=
          map (fun c =>
                 ContainerRemove (getContainer (Id c))
                   {| v := true; force := true |}) found in
        (exists settled,
           rest = map Issued removals ++ settled /\ issued settled = []) /\
        issued rest = removals /\
        count_issued is_ContainerRemove evs = length found /\
        (found = [] -> rest = [] /\ r = Resolved [])
    | Resolved _ => False
    end.
Proof.
  intros Hrun label query. apply stop_run in Hrun.
  change (findQuery this (buildId config)) with query in Hrun.
  destruct (listContainers rt _ _) as [found|e].
  - destruct Hrun as (settled & -> & Hs & Hempty).
    assert (Hissued :
              issued (map (fun c => Issued (removeCall (getContainer (Id c))))
                        found ++ settled)
              = map (fun c => removeCall (getContainer (Id c))) found).
    { rewrite issued_app, Hs, app_nil_r.
      apply (issued_map_Issued (fun c => removeCall (getContainer (Id c)))). }
    destruct (count_removals (fun c => getContainer (Id c)) found) as [Hn H0].
    unfold count_issued. cbn [app].
    rewrite issued_Issued, issued_Settled, Hissued.
    split; [simpl; now rewrite H0 |].
    eexists _, _. split; [reflexivity |]. cbn beta iota zeta.
    split; [|split; [|split]].
    + exists settled. now rewrite map_map.
    + exact Hissued.
    + simpl. exact Hn.
    + intros ->. now destruct (Hempty eq_refl) as [-> ->].
  - destruct Hrun as [-> ->]. split; [reflexivity |].
    eexists _, _. split; [reflexivity |]. cbn. auto.
Qed.

Lemma stop_lists_then_removes_witness :
  let run :=
    _stop (Example.runtime [{| Id := "a" |}; {| Id := "b" |}])
      Example.executor Example.config [] in
  count_issued is_ListContainers (fst run) = 1 /\
  count_issued is_ContainerRemove (fst run) = 2 /\
  snd run = Resolved [tt; tt].
Proof.
  intros run.
  destruct (stop_lists_then_removes
              (Example.runtime [{| Id := "a" |}; {| Id := "b" |}])
              Example.executor Example.config [] (fst run) (snd run) eq_refl)
    as (Hlist & answer & rest & Hevs & Hrest).
  injection Hevs as <- <-. destruct Hrest as (_ & _ & Hcount & _).
  split; [exact Hlist | split; [exact Hcount | reflexivity]].
Defined.

(** With no container found, [_stop] resolves after the query alone. *)
Lemma stop_nothing_found :
  _stop (Example.runtime []) Example.executor Example.config []
  = ([Issued (findQuery Example.executor 1992);
      Settled (findQuery Example.executor 1992) (Resolved (VContainers []))],
     Resolved []).
Proof. reflexivity. Qed.

(** The filter of the query for build 1992 without a prefix, as the
    runtime receives it. *)
Lemma stop_filter_example :
  filters (listArgs Example.executor 1992)
  = "{" +:+ JSON.quote "label" +:+ ":[" +:+ JSON.quote "sdbuild=1992" +:+ "]}".
Proof. reflexivity. Qed.

(** ** The order of the calls of [_start] *)

(** An occurrence of [x] in [l], with what comes before it. *)
Lemma occurrence_at {A} (l before after : list A) (x : A) :
  l = before ++ x :: after ->
  nth_error l (length before) = Some x /\
  before = firstn (length before) l.
Proof.
  intros ->. split.
  - rewrite nth_error_app2 by lia. now rewrite Nat.sub_diag.
  - now rewrite firstn_app, Nat.sub_diag, firstn_all, app_nil_r.
Qed.

(** Every position of an occurrence in an explicit trace, in turn. *)
Ltac walk_trace Hn n :=
  lazymatch type of Hn with
  | nth_error [] _ = Some _ => destruct n; discriminate Hn
  | nth_error (_ :: _) _ = Some _ =>
      destruct n as [|n];
      [ cbn [nth_error] in Hn; first [discriminate Hn | injection Hn as Hn]
      | cbn [nth_error] in Hn; walk_trace Hn n ]
  end.

Ltac occurrence_cases H before :=
  let n := fresh "n" in
  let Hn := fresh "Hn" in
  let Hb := fresh "Hb" in
  let Hlen := fresh "Hlen" in
  apply occurrence_at in H as [Hn Hb];
  remember (length before) as n eqn:Hlen; clear Hlen; subst before;
  unfold done, created, pullLauncher, pullBuild, createLauncher, createBuild
    in Hn;
  walk_trace Hn n; cbn [firstn].

(** C6: in a run of [_start] both pulls are issued before either settles;
    a container is created only after both pulls have resolved; the build
    container is created right after the creation of the support container
    has resolved, with the container it yielded; and the build container is
    started right after its own creation has resolved. *)
Theorem start_calls_in_order imageParser rt this config m h evs r :
  _start imageParser rt this config = Some m ->
  m h = (evs, r) ->
  exists piecesParts,
    imageParser (container config) = Some piecesParts /\
    let pull1 := CreateImage (launcherImageOptions this) in
    let pull2 := CreateImage (buildImageOptions piecesParts) in
    let create1 := CreateContainer (launchContainerOptions this config) in
    (exists first answer rest,
       evs = Issued pull1 :: Issued pull2 :: Settled first answer :: rest /\
       (first = pull1 \/ first = pull2)) /\
    (forall before o after,
       evs = before ++ Issued (CreateContainer o) :: after ->
       exists first second rest,
         before = [Issued pull1; Issued pull2; done first; done second] ++ rest /\
         ((first = pull1 /\ second = pull2) \/
          (first = pull2 /\ second = pull1))) /\
    (forall before o after,
       evs = before ++ Issued (CreateContainer o) :: after ->
       o <> launchContainerOptions this config ->
       exists rest launchContainer,
         o = buildContainerOptions this config launchContainer /\
         before = rest ++ [Issued create1;
                           created (launchContainerOptions this config)
                             launchContainer]) /\
    (forall before c after,
       evs = before ++ Issued (ContainerStart c) :: after ->
       exists rest launchContainer,
         before = rest ++
           [Issued
              (CreateContainer
                 (buildContainerOptions this config launchContainer));
            created (buildContainerOptions this config launchContainer) c]).
Proof.
  unfold _start. destruct (imageParser (container config)) as [pieces|];
    [|discriminate].
  intros [= <-] Hrun. apply start_chain_run in Hrun.
  exists pieces. split; [reflexivity |]. cbn zeta.
  destruct Hrun as [x y e' Hord | x y e' Hord | x y e' Hord
                    | x y c1 e' Hord | x y c1 c2 e' Hord | x y c1 c2 Hord].
  all: split; [|split; [|split]].
  all: try (destruct Hord as [[-> ->] | [-> ->]];
            (eexists _, _, _; split;
             [reflexivity | first [left; reflexivity | right; reflexivity]]);
            fail).
  all: intros before o after Hevs; try intros Hne.
  all: destruct Hord as [[-> ->] | [-> ->]].
  all: occurrence_cases Hevs before.
  all: try (eexists _, _, _; split;
            [reflexivity
            | first [left; split; reflexivity | right; split; reflexivity]];
            fail).
  all: try (symmetry in Hn; contradiction).
  all: subst.
  all: match goal with
       | |- exists rest _, _ /\ ?l = _ =>
           exists (removelast (removelast l)); eexists; split; reflexivity
       | |- exists rest _, ?l = _ =>
           exists (removelast (removelast l)); eexists; reflexivity
       end.
Qed.

Lemma start_calls_in_order_witness :
  let pull1 :=
    CreateImage {| fromImage := "screwdrivercd/launcher"; tag := "stable" |} in
  let pull2 := CreateImage {| fromImage := "node"; tag := "6" |} in
  exists first answer rest,
    fst (Example.run (Example.runtime []))
    = Issued pull1 :: Issued pull2 :: Settled first answer :: rest /\
    (first = pull1 \/ first = pull2).
Proof.
  destruct (start_calls_in_order DockerParseImage.parse (Example.runtime [])
              Example.executor Example.config _ []
              (fst (Example.run (Example.runtime [])))
              (snd (Example.run (Example.runtime []))) eq_refl eq_refl)
    as (pieces & Hp & H & _).
  vm_compute in Hp. injection Hp as <-. exact H.
Defined.

(** The runtime decides which pull settles first: both orders occur. *)
Lemma pulls_settle_in_either_order :
  let pull1 :=
    CreateImage {| fromImage := "screwdrivercd/launcher"; tag := "stable" |} in
  let pull2 := CreateImage {| fromImage := "node"; tag := "6" |} in
  firstn 4 (fst (Example.run (Example.runtime [])))
  = [Issued pull1; Issued pull2; done pull2; done pull1] /\
  firstn 4 (fst (Example.run Example.runtime_start_fails))
  = [Issued pull1; Issued pull2; done pull1; done pull2].
Proof. split; reflexivity. Qed.

(** ** The timeout of a build *)

Section TimeoutFacts.

Lemma pretty_N_char_digit (k : N) : is_digit (pretty_N_char k) = true.
Proof.
  destruct k as [|p]; [reflexivity |].
  do 4 (destruct p as [p|p|]; try reflexivity).
Qed.

Lemma pretty_N_char_value (k : N) :
  (k < 10)%N -> Z.of_nat (nat_of_ascii (pretty_N_char k) - 48) = Z.of_N k.
Proof.
  intros Hk.
  assert (Hcases : In k [0; 1; 2; 3; 4; 5; 6; 7; 8; 9]%N).
  { simpl. lia. }
  simpl in Hcases.
  repeat (destruct Hcases as [<- | Hcases]; [reflexivity |]).
  contradiction.
Qed.

(** The digits [pretty] prints in front of [s]. *)
Lemma pretty_N_go_digits (x : N) (s : string) :
  Js.forallb is_digit s = true ->
  Js.forallb is_digit (pretty_N_go x s) = true.
Proof.
  revert s. induction (N.lt_wf_0 x) as [x _ IH]. intros s Hs.
  destruct (N.eq_dec x 0%N) as [-> | Hx]; [now rewrite pretty_N_go_0 |].
  rewrite pretty_N_go_step by lia.
  apply IH; [apply N.div_lt; lia |].
  simpl. now rewrite pretty_N_char_digit.
Qed.

Lemma pretty_N_go_value (x : N) (s : string) :
  digits_value 0 (pretty_N_go x s) = digits_value (Z.of_N x) s.
Proof.
  revert s. induction (N.lt_wf_0 x) as [x _ IH]. intros s.
  destruct (N.eq_dec x 0%N) as [-> | Hx]; [now rewrite pretty_N_go_0 |].
  rewrite pretty_N_go_step by lia.
  rewrite IH by (apply N.div_lt; lia).
  simpl. rewrite pretty_N_char_value by (apply N.mod_lt; lia).
  f_equal. rewrite <- N2Z.inj_mul with (n := 10%N), <- N2Z.inj_add.
  f_equal. now rewrite <- N.div_mod by lia.
Qed.

Lemma pretty_N_go_not_empty (x : N) (s : string) :
  Js.is_empty s = false -> Js.is_empty (pretty_N_go x s) = false.
Proof.
  revert s. induction (N.lt_wf_0 x) as [x _ IH]. intros s Hs.
  destruct (N.eq_dec x 0%N) as [-> | Hx]; [now rewrite pretty_N_go_0 |].
  rewrite pretty_N_go_step by lia. apply IH; [apply N.div_lt; lia | reflexivity].
Qed.

(** The decimal digits of a positive number. *)
Lemma pretty_positive_digits (p : positive) :
  exists c r,
    pretty p = String c r /\ Js.forallb is_digit (String c r) = true /\
    digits_value 0 (String c r) = Z.pos p.
Proof.
  assert (Hp : pretty p = pretty_N_go (N.pos p) EmptyString) by reflexivity.
  pose proof (pretty_N_go_digits (N.pos p) EmptyString eq_refl) as Hd.
  pose proof (pretty_N_go_value (N.pos p) EmptyString) as Hv.
  rewrite <- Hp in Hd, Hv.
  assert (Hne : Js.is_empty (pretty p) = false).
  { rewrite Hp. rewrite pretty_N_go_step by lia.
    now apply pretty_N_go_not_empty. }
  destruct (pretty p) as [|c r]; [discriminate |].
  exists c, r. auto.
Qed.

Lemma digit_not_space_or_sign c :
  is_digit c = true ->
  is_space c = false /\ Ascii.eqb c "-" = false /\ Ascii.eqb c "+" = false.
Proof.
  destruct c as [[] [] [] [] [] [] [] []]; try discriminate; auto.
Qed.

Lemma parseInt_digits c r :
  Js.forallb is_digit (String c r) = true ->
  parseInt (JsString (String c r)) = Some (digits_value 0 (String c r)).
Proof.
  intros Hd. pose proof Hd as Hc. simpl in Hc.
  apply andb_true_iff in Hc as [Hc _].
  destruct (digit_not_space_or_sign c Hc) as (Hs & Hm & Hp).
  unfold parseInt. cbn [ToString Js.span]. rewrite Hs. cbn [snd].
  rewrite Hm, Hp. rewrite (span_all _ _ Hd). cbn [fst].
  now rewrite Z.mul_1_l.
Qed.

(** [parseInt] reads back an integer from its decimal form. *)
Lemma parseInt_number (z : Z) : parseInt (JsNumber z) = Some z.
Proof.
  destruct z as [|p|p]; [reflexivity | |].
  - destruct (pretty_positive_digits p) as (c & r & Hp & Hd & Hv).
    change (parseInt (JsNumber (Z.pos p)))
      with (parseInt (JsString (pretty p))).
    rewrite Hp, parseInt_digits by exact Hd. now rewrite Hv.
  - destruct (pretty_positive_digits p) as (c & r & Hp & Hd & Hv).
    assert (Hminus : forall body,
               parseInt (JsString (String "-" body))
               = match fst (Js.span is_digit body) with
                 | EmptyString => None
                 | String d ds => Some (-1 * digits_value 0 (String d ds))%Z
                 end) by reflexivity.
    change (parseInt (JsNumber (Z.neg p)))
      with (parseInt (JsString (String "-" (pretty p)))).
    rewrite Hminus, Hp, (span_all _ _ Hd). cbn [fst]. now rewrite Hv.
Qed.

End TimeoutFacts.

(** ** Names, labels and the options of the build container *)

(** The calls that create a container in a run of [_start]. *)
Lemma start_creates imageParser rt this config m h evs r o :
  _start imageParser rt this config = Some m ->
  m h = (evs, r) ->
  In (Issued (CreateContainer o)) evs ->
  o = launchContainerOptions this config \/
  exists launchContainer, o = buildContainerOptions this config launchContainer.
Proof.
  unfold _start. destruct (imageParser (container config)) as [pieces|];
    [|discriminate].
  intros [= <-] Hrun Hin. apply start_chain_run in Hrun.
  destruct Hrun as [x y e' Hord | x y e' Hord | x y e' Hord
                    | x y c1 e' Hord | x y c1 c2 e' Hord | x y c1 c2 Hord].
  all: destruct Hord as [[-> ->] | [-> ->]]; trace_cases Hin; eauto.
Qed.




(** A build with the prefix [beta_]. *)
Lemma names_with_prefix :
  let this :=
    constructor
      {| Options.ecosystem := {| api := "api"; store := "store"; ui := "ui" |};
         Options.launchVersion := None;
         Options.launchImage := None;
         Options.prefix := Some "beta_" |} in
  name (launchContainerOptions this Example.config) = "beta_1992-init" /\
  name (buildContainerOptions this Example.config {| id := "launcherID" |})
  = "beta_1992-build" /\
  filters (listArgs this 1992)
  = "{" +:+ JSON.quote "label" +:+ ":[" +:+ JSON.quote "sdbuild=beta_1992"
    +:+ "]}".
Proof. repeat split. Qed.

Lemma timeout_absent config :
  timeout_annotation config = None -> timeout config = Some 90%Z.
Proof.
  unfold timeout_annotation, timeout, reach_annotations.
  destruct (annotations config) as [m|]; [|reflexivity].
  now intros ->.
Qed.

Lemma timeout_falsy config value :
  timeout_annotation config = Some value -> truthy value = false ->
  timeout config = Some 90%Z.
Proof.
  unfold timeout_annotation, timeout, reach_annotations.
  destruct (annotations config) as [m|]; [|discriminate].
  intros -> Hv. simpl. unfold js_or. now rewrite Hv.
Qed.

Lemma timeout_number config (n : Z) :
  timeout_annotation config = Some (JsNumber n) -> n <> 0%Z ->
  isSafeInteger n = true ->
  timeout config = Some n.
Proof.
  unfold timeout_annotation, timeout, reach_annotations.
  destruct (annotations config) as [m|]; [|discriminate].
  intros -> Hn _. simpl. unfold js_or, truthy.
  apply Z.eqb_neq in Hn. rewrite Hn. apply parseInt_number.
Qed.

(** The command of the build container in a run of [_start]: every
    container created but the support container carries it, and a run that
    resolves has created one. *)
Lemma start_command imageParser rt this config m h evs r
    (minutes : option Z) :
  _start imageParser rt this config = Some m ->
  m h = (evs, r) ->
  timeout config = minutes ->
  (forall o,
     In (Issued (CreateContainer o)) evs ->
     o <> launchContainerOptions this config ->
     Cmd o
     = Some
         [ "/opt/sd/run.sh" +:+ " "
           +:+ String Js.dquote (token config +:+ Js.str Js.dquote) +:+ " "
           +:+ api (ecosystem this) +:+ " "
           +:+ store (ecosystem this) +:+ " "
           +:+ NumberToString minutes +:+ " "
           +:+ pretty (buildId config) +:+ " "
           +:+ ui (ecosystem this) ]) /\
  (r = Resolved tt ->
   exists o,
     In (Issued (CreateContainer o)) evs /\
     Cmd o
     = Some
         [ "/opt/sd/run.sh" +:+ " "
           +:+ String Js.dquote (token config +:+ Js.str Js.dquote) +:+ " "
           +:+ api (ecosystem this) +:+ " "
           +:+ store (ecosystem this) +:+ " "
           +:+ NumberToString minutes +:+ " "
           +:+ pretty (buildId config) +:+ " "
           +:+ ui (ecosystem this) ]).
Proof.
  intros Hm Hrun <-. split.
  - intros o Hin Hne.
    destruct (start_creates _ _ _ _ _ _ _ _ _ Hm Hrun Hin) as [-> | [c ->]];
      [contradiction | reflexivity].
  - revert Hm Hrun. unfold _start.
    destruct (imageParser (container config)) as [pieces|]; [|discriminate].
    intros [= <-] Hrun Hr. apply start_chain_run in Hrun.
    destruct Hrun as [x y e' Hord | x y e' Hord | x y e' Hord
                      | x y c1 e' Hord | x y c1 c2 e' Hord | x y c1 c2 Hord];
      try discriminate Hr.
    exists (buildContainerOptions this config c1).
    split; [unfold createBuild; in_trace | reflexivity].
Qed.

(** C8: in every run of [_start], the command of the build container is
    the launcher script followed by the quoted token, the API and store URIs,
    the timeout in minutes, the build id and the UI URI, and a run that
    resolves has created that container; the timeout is the number the
    annotation [screwdriver.cd/timeout] holds (a safe integer other than 0),
    and 90 without the annotation. *)
Theorem build_command imageParser rt this config m h evs r (minutes : Z) :
  _start imageParser rt this config = Some m ->
  m h = (evs, r) ->
  (timeout_annotation config = None /\ minutes = 90%Z) \/
  (timeout_annotation config = Some (JsNumber minutes) /\
   minutes <> 0%Z /\ isSafeInteger minutes = true) ->
  timeout config = Some minutes /\
  (forall o,
     In (Issued (CreateContainer o)) evs ->
     o <> launchContainerOptions this config ->
     Cmd o
     = Some
         [ "/opt/sd/run.sh" +:+ " "
           +:+ String Js.dquote (token config +:+ Js.str Js.dquote) +:+ " "
           +:+ api (ecosystem this) +:+ " "
           +:+ store (ecosystem this) +:+ " "
           +:+ pretty minutes +:+ " "
           +:+ pretty (buildId config) +:+ " "
           +:+ ui (ecosystem this) ]) /\
  (r = Resolved tt ->
   exists o,
     In (Issued (CreateContainer o)) evs /\
     Cmd o
     = Some
         [ "/opt/sd/run.sh" +:+ " "
           +:+ String Js.dquote (token config +:+ Js.str Js.dquote) +:+ " "
           +:+ api (ecosystem this) +:+ " "
           +:+ store (ecosystem this) +:+ " "
           +:+ pretty minutes +:+ " "
           +:+ pretty (buildId config) +:+ " "
           +:+ ui (ecosystem this) ]).
Proof.
  intros Hm Hrun Hrequest.
  assert (Ht : timeout config = Some minutes).
  { destruct Hrequest as [[Habsent ->] | (Hn & Hnz & Hsafe)].
    - now apply timeout_absent.
    - now apply timeout_number. }
  split; [exact Ht |].
  exact (start_command _ _ _ _ _ _ _ _ (Some minutes) Hm Hrun Ht).
Qed.

Lemma build_command_witness :
  (exists o,
     In (Issued (CreateContainer o))
       (fst (Example.run_request (JsNumber 5))) /\
     Cmd o = Some (Example.command "5")) /\
  (exists o,
     In (Issued (CreateContainer o))
       (fst (Example.run (Example.runtime []))) /\
     Cmd o = Some (Example.command "90")).
Proof.
  split.
  - destruct (build_command DockerParseImage.parse (Example.runtime [])
                Example.executor (Example.request (JsNumber 5)) _ []
                (fst (Example.run_request (JsNumber 5)))
                (snd (Example.run_request (JsNumber 5))) 5 eq_refl eq_refl)
      as (_ & _ & Hcreated).
    + right. repeat split. discriminate.
    + exact (Hcreated eq_refl).
  - destruct (build_command DockerParseImage.parse (Example.runtime [])
                Example.executor Example.config _ []
                (fst (Example.run (Example.runtime [])))
                (snd (Example.run (Example.runtime []))) 90 eq_refl eq_refl)
      as (_ & _ & Hcreated).
    + left. split; reflexivity.
    + exact (Hcreated eq_refl).
Defined.

(** C9: the build container [_start] creates is privileged and binds the
    Docker socket of the host, whatever the build request. *)
Theorem build_container_privileged imageParser rt this config m h evs r :
  _start imageParser rt this config = Some m ->
  m h = (evs, r) ->
  forall o,
    In (Issued (CreateContainer o)) evs ->
    o <> launchContainerOptions this config ->
    exists launchContainer hostConfig,
      o = buildContainerOptions this config launchContainer /\
      HostConfig o = Some hostConfig /\
      Privileged hostConfig = true /\
      In "/var/run/docker.sock:/var/run/docker.sock" (Binds hostConfig).
Proof.
  intros Hm Hrun o Hin Hne.
  destruct (start_creates _ _ _ _ _ _ _ _ _ Hm Hrun Hin) as [-> | [c ->]];
    [contradiction |].
  eexists c, _. repeat split. simpl. auto.
Qed.

Lemma build_container_privileged_witness :
  exists launchContainer hostConfig,
    HostConfig
      (buildContainerOptions Example.executor Example.config launchContainer)
    = Some hostConfig /\
    Privileged hostConfig = true /\
    Binds hostConfig = ["/var/run/docker.sock:/var/run/docker.sock"].
Proof.
  destruct (build_container_privileged DockerParseImage.parse
              (Example.runtime []) Example.executor Example.config _ []
              (fst (Example.run (Example.runtime [])))
              (snd (Example.run (Example.runtime []))) eq_refl eq_refl
              (buildContainerOptions Example.executor Example.config
                 {| id := "1992-init" |}))
    as (c & hc & _ & Hhc & Hp & _).
  - exact (nth_error_In (fst (Example.run (Example.runtime []))) 6 eq_refl).
  - intros H. apply (f_equal Entrypoint) in H. discriminate H.
  - exists {| id := "1992-init" |}, hc.
    injection Hhc as <-. repeat split.
Defined.

Lemma without_timeout_absent config :
  timeout_annotation (without_timeout config) = None.
Proof.
  unfold timeout_annotation, without_timeout. simpl.
  destruct (annotations config) as [m|]; [|reflexivity].
  simpl. apply lookup_delete_eq.
Qed.

(** The annotation ["0"], a string, is not falsy: the build container
    [_start] creates for it runs with a timeout of 0 minutes, not with the
    default. *)
Lemma zero_timeout_takes_effect :
  truthy (JsString "0") = true /\
  timeout (Example.request (JsString "0")) = Some 0%Z /\
  snd (Example.run_request (JsString "0")) = Resolved tt /\
  (exists o,
     In (Issued (CreateContainer o))
       (fst (Example.run_request (JsString "0"))) /\
     Cmd o = Some (Example.command "0")) /\
  ~ (exists o,
       In (Issued (CreateContainer o))
         (fst (Example.run_request (JsString "0"))) /\
       Cmd o = Some (Example.command "90")).
Proof.
  split; [reflexivity |]. split; [reflexivity |]. split; [reflexivity |].
  split.
  - eexists. split.
    + exact (nth_error_In (fst (Example.run_request (JsString "0"))) 6
               eq_refl).
    + reflexivity.
  - intros (o & Hin & Hcmd). trace_cases Hin; discriminate Hcmd.
Qed.

(** C10, as amended: when the annotation [screwdriver.cd/timeout] is there
    with a falsy value (the number 0, the empty string, ...), the build
    container [_start] creates runs with the default timeout of 90 minutes,
    and the run is the one of the same request without the annotation; so a
    timeout of 0 asked for as the number 0 never takes effect.  Asked for as
    the string ["0"], which is not falsy, it does: the build container runs
    with a timeout of 0. *)
Theorem falsy_timeout_is_default imageParser rt this config value m h evs r :
  timeout_annotation config = Some value ->
  _start imageParser rt this config = Some m ->
  m h = (evs, r) ->
  (truthy value = false ->
   timeout config = Some 90%Z /\
   (forall o,
      In (Issued (CreateContainer o)) evs ->
      o <> launchContainerOptions this config ->
      Cmd o
      = Some
          [ "/opt/sd/run.sh" +:+ " "
            +:+ String Js.dquote (token config +:+ Js.str Js.dquote) +:+ " "
            +:+ api (ecosystem this) +:+ " "
            +:+ store (ecosystem this) +:+ " "
            +:+ "90" +:+ " "
            +:+ pretty (buildId config) +:+ " "
            +:+ ui (ecosystem this) ]) /\
   (r = Resolved tt ->
    exists o,
      In (Issued (CreateContainer o)) evs /\
      Cmd o
      = Some
          [ "/opt/sd/run.sh" +:+ " "
            +:+ String Js.dquote (token config +:+ Js.str Js.dquote) +:+ " "
            +:+ api (ecosystem this) +:+ " "
            +:+ store (ecosystem this) +:+ " "
            +:+ "90" +:+ " "
            +:+ pretty (buildId config) +:+ " "
            +:+ ui (ecosystem this) ]) /\
   exists m',
     _start imageParser rt this (without_timeout config) = Some m' /\
     m' h = (evs, r)) /\
  (value = JsString "0" ->
   timeout config = Some 0%Z /\
   (forall o,
      In (Issued (CreateContainer o)) evs ->
      o <> launchContainerOptions this config ->
      Cmd o
      = Some
          [ "/opt/sd/run.sh" +:+ " "
            +:+ String Js.dquote (token config +:+ Js.str Js.dquote) +:+ " "
            +:+ api (ecosystem this) +:+ " "
            +:+ store (ecosystem this) +:+ " "
            +:+ "0" +:+ " "
            +:+ pretty (buildId config) +:+ " "
            +:+ ui (ecosystem this) ]) /\
   (r = Resolved tt ->
    exists o,
      In (Issued (CreateContainer o)) evs /\
      Cmd o
      = Some
          [ "/opt/sd/run.sh" +:+ " "
            +:+ String Js.dquote (token config +:+ Js.str Js.dquote) +:+ " "
            +:+ api (ecosystem this) +:+ " "
            +:+ store (ecosystem this) +:+ " "
            +:+ "0" +:+ " "
            +:+ pretty (buildId config) +:+ " "
            +:+ ui (ecosystem this) ])).
Proof.
  intros Hvalue Hm Hrun. split.
  - intros Hfalsy.
    pose proof (timeout_falsy config value Hvalue Hfalsy) as Ht.
    pose proof (timeout_absent _ (without_timeout_absent config)) as Ht'.
    split; [exact Ht |].
    destruct (start_command _ _ _ _ _ _ _ _ (Some 90%Z) Hm Hrun Ht)
      as [Hall Hcreated].
    split; [exact Hall |]. split; [exact Hcreated |].
    revert Hm Hrun. unfold _start. cbn [container without_timeout].
    destruct (imageParser (container config)) as [pieces|]; [|discriminate].
    intros [= <-] Hrun. eexists. split; [reflexivity |].
    rewrite <- Hrun. unfold _start_chain, buildContainerOptions.
    now rewrite Ht, Ht'.
  - intros ->.
    assert (Ht : timeout config = Some 0%Z).
    { revert Hvalue. unfold timeout_annotation, timeout, reach_annotations.
      destruct (annotations config) as [a|]; [|discriminate].
      now intros ->. }
    split; [exact Ht |].
    exact (start_command _ _ _ _ _ _ _ _ (Some 0%Z) Hm Hrun Ht).
Qed.

Lemma falsy_timeout_is_default_witness :
  timeout (Example.request (JsNumber 0)) = Some 90%Z /\
  (exists o,
     In (Issued (CreateContainer o))
       (fst (Example.run_request (JsNumber 0))) /\
     Cmd o = Some (Example.command "90")) /\
  Example.run_request (JsNumber 0) = Example.run (Example.runtime []).
Proof.
  destruct (falsy_timeout_is_default DockerParseImage.parse
              (Example.runtime []) Example.executor
              (Example.request (JsNumber 0)) (JsNumber 0) _ []
              (fst (Example.run_request (JsNumber 0)))
              (snd (Example.run_request (JsNumber 0)))
              eq_refl eq_refl eq_refl)
    as [Hfalsy _].
  destruct (Hfalsy eq_refl) as (Ht & _ & Hcreated & _).
  split; [exact Ht |]. split; [exact (Hcreated eq_refl) | reflexivity].
Defined.

(** The empty string is falsy as well; the string ["0"] is not, and is
    read as a timeout of 0 minutes. *)
Lemma timeout_of_strings :
  let request value :=
    {| buildId := 1992;
       container := "node:6";
       token := "123456";
       annotations := Some {[ "screwdriver.cd/timeout" := value ]} |} in
  timeout (request (JsString EmptyString)) = Some 90%Z /\
  timeout (request (JsString "0")) = Some 0%Z /\
  timeout (request (JsString "120")) = Some 120%Z /\
  timeout (request (JsString "soon")) = None.
Proof. repeat split. Qed.

(** * Further properties *)

(** ** How a run of [_start] ends *)

(** X1: a pull that fails ends [_start]: it rejects with the error of that
    pull, which is the last event it sees and the only error, and it creates
    and starts nothing. *)
Theorem start_pull_rejected imageParser rt this config m h evs r o e :
  _start imageParser rt this config = Some m ->
  m h = (evs, r) ->
  In (Settled (CreateImage o) (Rejected e)) evs ->
  r = Rejected e /\
  (exists before,
     evs = before ++ [Settled (CreateImage o) (Rejected e)] /\
     rejections before = []) /\
  count_issued is_CreateImage evs = 2 /\
  count_issued is_CreateContainer evs = 0 /\
  count_issued is_ContainerStart evs = 0.
Proof.
  unfold _start. destruct (imageParser (container config)) as [pieces|];
    [|discriminate].
  intros [= <-] Hrun Hin. apply start_chain_run in Hrun.
  destruct Hrun as [x y e' Hord | x y e' Hord | x y e' Hord
                    | x y c1 e' Hord | x y c1 c2 e' Hord | x y c1 c2 Hord].
  all: destruct Hord as [[-> ->] | [-> ->]]; trace_cases Hin.
  all: split; [reflexivity |].
  all: split; [|repeat split].
  all: match goal with
       | |- exists before, ?l = _ /\ _ =>
           exists (removelast l); split; reflexivity
       end.
Qed.

Lemma start_pull_rejected_witness :
  let run := Example.run (Scenario.runtime_pull_fails "node" 0) in
  snd run = Rejected "Unable to pull image" /\
  count_issued is_CreateContainer (fst run) = 0 /\
  count_issued is_ContainerStart (fst run) = 0.
Proof.
  intros run.
  destruct (start_pull_rejected DockerParseImage.parse
              (Scenario.runtime_pull_fails "node" 0) Example.executor
              Example.config _ [] (fst run) (snd run)
              {| fromImage := "node"; tag := "6" |} "Unable to pull image"
              eq_refl eq_refl)
    as (Hr & _ & _ & Hc & Hs).
  - exact (nth_error_In (fst run) 3 eq_refl).
  - repeat split; assumption.
Defined.

(** X2: [_start] stops at the first error: a run that rejects holds exactly one
    error, the one it rejects with, as its last event; a run that resolves
    holds none. *)
Theorem start_stops_at_first_rejection imageParser rt this config m h evs r :
  _start imageParser rt this config = Some m ->
  m h = (evs, r) ->
  match r with
  | Resolved _ => rejections evs = []
  | Rejected e =>
      rejections evs = [e] /\
      exists before c, evs = before ++ [Settled c (Rejected e)]
  end.
Proof.
  unfold _start. destruct (imageParser (container config)) as [pieces|];
    [|discriminate].
  intros [= <-] Hrun. apply start_chain_run in Hrun.
  destruct Hrun as [x y e' Hord | x y e' Hord | x y e' Hord
                    | x y c1 e' Hord | x y c1 c2 e' Hord | x y c1 c2 Hord].
  all: try reflexivity.
  all: split; [reflexivity |].
  all: match goal with
       | |- exists before c, ?l = _ =>
           exists (removelast l); eexists; reflexivity
       end.
Qed.

Lemma start_stops_at_first_rejection_witness :
  rejections (fst (Example.run (Example.runtime_create_fails 0)))
  = ["Unable to create container"] /\
  rejections (fst (Example.run (Example.runtime []))) = [].
Proof.
  split.
  - exact (proj1 (start_stops_at_first_rejection DockerParseImage.parse
                    (Example.runtime_create_fails 0) Example.executor
                    Example.config _ [] _ (Rejected "Unable to create container")
                    eq_refl eq_refl)).
  - exact (start_stops_at_first_rejection DockerParseImage.parse
             (Example.runtime []) Example.executor Example.config _ [] _
             (Resolved tt) eq_refl eq_refl).
Defined.

(** X3: when [_start] settles, every call it issued has settled, but for one
    case: a pull that rejects while the other pull is still in flight. *)
Theorem start_calls_in_flight imageParser rt this config m h evs r :
  _start imageParser rt this config = Some m ->
  m h = (evs, r) ->
  length (issued evs) = length (settled evs) \/
  (length (issued evs) = S (length (settled evs)) /\
   exists pull1 pull2 o e,
     evs = [Issued (CreateImage pull1); Issued (CreateImage pull2);
            Settled (CreateImage o) (Rejected e)] /\
     (o = pull1 \/ o = pull2)).
Proof.
  unfold _start. destruct (imageParser (container config)) as [pieces|];
    [|discriminate].
  intros [= <-] Hrun. apply start_chain_run in Hrun.
  destruct Hrun as [x y e' Hord | x y e' Hord | x y e' Hord
                    | x y c1 e' Hord | x y c1 c2 e' Hord | x y c1 c2 Hord].
  all: try (left; reflexivity).
  right. split; [reflexivity |].
  destruct Hord as [[-> ->] | [-> ->]]; eexists _, _, _, _;
    (split; [reflexivity | auto]).
Qed.

Lemma start_calls_in_flight_witness :
  let run := Example.run (Scenario.runtime_pull_fails "node" 1) in
  length (issued (fst run)) = length (settled (fst run)) \/
  (length (issued (fst run)) = S (length (settled (fst run))) /\
   exists pull1 pull2 o e,
     fst run = [Issued (CreateImage pull1); Issued (CreateImage pull2);
                Settled (CreateImage o) (Rejected e)] /\
     (o = pull1 \/ o = pull2)).
Proof.
  intros run.
  exact (start_calls_in_flight DockerParseImage.parse
           (Scenario.runtime_pull_fails "node" 1) Example.executor
           Example.config _ [] (fst run) (snd run) eq_refl eq_refl).
Defined.

(** ** [Promise.all], for any number of promises *)

Section PromiseAllFacts.

Variable rt : Runtime.

Lemma extract_Permutation {A} i (x : A) l y rest :
  extract i x l = (y, rest) -> Permutation (x :: l) (y :: rest).
Proof.
  revert i x y rest. induction l as [|z l IH]; intros i x y rest.
  - rewrite extract_nil. now intros [= <- <-].
  - destruct i as [|i]; simpl; [now intros [= <- <-] |].
    destruct (extract i z l) as [y' rest'] eqn:He.
    intros [= <- <-]. apply IH in He.
    rewrite He. apply perm_swap.
Qed.

Lemma settled_app (a b : Trace) : settled (a ++ b) = settled a ++ settled b.
Proof. unfold settled. apply omap_app. Qed.

Lemma rejections_app (a b : Trace) :
  rejections (a ++ b) = rejections a ++ rejections b.
Proof. unfold rejections. apply omap_app. Qed.

Lemma runCommand_coherent {A} c (answer : Trace -> Result A) inj h evs p :
  runCommand c answer inj h = (evs, Resolved p) -> coherent p.
Proof.
  unfold runCommand. intros [= _ <-] h'. simpl.
  now destruct (answer h').
Qed.

(** Waiting for all of [pending]: either one of them rejects, and the wait
    ends on that error, the first; or each settles once with a value, which
    is stored under its key. *)
Lemma settle_all_run {A} n (pending : list (nat * Promise A)) values h evs r :
  length pending = n ->
  Forall (fun kp => coherent (snd kp)) pending ->
  settle_all rt n pending values h = (evs, r) ->
  match r with
  | Resolved final =>
      rejections evs = [] /\
      Permutation (settled evs) (calls pending) /\
      forall k, is_Some (final !! k) <->
                is_Some (values !! k) \/ In k (keys pending)
  | Rejected e =>
      rejections evs = [e] /\
      exists before c, evs = before ++ [Settled c (Rejected e)]
  end.
Proof.
  revert pending values h evs r.
  induction n as [|n IH]; intros pending values h evs r Hlen Hco.
  - destruct pending; [|discriminate]. simpl. intros [= <- <-].
    split; [reflexivity |]. split; [constructor |].
    intros k. unfold keys. simpl. tauto.
  - destruct pending as [|p ps]; [discriminate |]. cbn [settle_all].
    destruct (extract _ p ps) as [[k q] rest] eqn:He.
    apply extract_Permutation in He.
    assert (Hq : coherent q /\ Forall (fun kp => coherent (snd kp)) rest).
    { rewrite He in Hco. now inversion Hco. }
    destruct Hq as [Hq Hrest].
    assert (Hlen' : length rest = n).
    { apply Permutation_length in He. simpl in *. lia. }
    intros H. apply bind_run in H. unfold await in H.
    specialize (Hq h). destruct (settle q h) as [l [a|e]].
    + destruct l as [v|]; [|contradiction].
      destruct H as (e2 & H & ->).
      specialize (IH _ _ _ _ _ Hlen' Hrest H).
      destruct r as [final|e].
      * destruct IH as (Hrej & Hperm & Hdom).
        split; [exact Hrej |]. split.
        -- unfold calls. rewrite He. simpl. constructor. exact Hperm.
        -- intros j. rewrite Hdom. unfold keys. rewrite He. simpl.
           destruct (decide (k = j)) as [-> | Hne].
           ++ rewrite lookup_insert_eq. split; eauto.
           ++ rewrite lookup_insert_ne by exact Hne. tauto.
      * destruct IH as (Hrej & before & c & ->).
        split; [exact Hrej |].
        exists (Settled (call q) (Resolved v) :: before), c. reflexivity.
    + destruct l as [|e']; [contradiction |]. subst e'.
      destruct H as [-> ->]. split; [reflexivity |].
      exists [], (call q). reflexivity.
Qed.

Lemma keys_imap {A} (ps : list (Promise A)) (g : nat -> nat) :
  keys (imap (fun j p => (g j, p)) ps) = map g (seq 0 (length ps)).
Proof.
  revert g. induction ps as [|p ps IH]; intros g; [reflexivity |].
  simpl. f_equal.
  transitivity (map (fun j => g (S j)) (seq 0 (length ps)));
    [apply (IH (fun j => g (S j))) |].
  now rewrite <- seq_shift, map_map.
Qed.

Lemma calls_imap {A} (ps : list (Promise A)) (g : nat -> nat) :
  calls (imap (fun j p => (g j, p)) ps) = map call ps.
Proof.
  revert g. induction ps as [|p ps IH]; intros g; [reflexivity |].
  simpl. f_equal. apply (IH (fun j => g (S j))).
Qed.

Lemma coherent_imap {A} (ps : list (Promise A)) (g : nat -> nat) :
  Forall coherent ps ->
  Forall (fun kp => coherent (snd kp)) (imap (fun j p => (g j, p)) ps).
Proof.
  revert g. induction ps as [|p ps IH]; intros g Hco; [constructor |].
  inversion Hco; subst. simpl. constructor; [assumption |].
  now apply (IH (fun j => g (S j))).
Qed.

Lemma length_omap_all {A} (f : nat -> option A) (l : list nat) :
  (forall k, In k l -> is_Some (f k)) -> length (omap f l) = length l.
Proof.
  induction l as [|k l IH]; intros Hall; [reflexivity |].
  simpl. destruct (Hall k (or_introl eq_refl)) as [a ->]. simpl.
  f_equal. apply IH. intros j Hj. apply Hall. now right.
Qed.

(** [Promise.all(ps)] resolves when every promise has resolved, once each,
    with one value per promise; it rejects with the first error, when it
    comes. *)
Lemma Promise_all_run {A} (ps : list (Promise A)) h evs r :
  Forall coherent ps ->
  Promise_all rt ps h = (evs, r) ->
  match r with
  | Resolved vs =>
      rejections evs = [] /\
      Permutation (settled evs) (map call ps) /\
      length vs = length ps
  | Rejected e =>
      rejections evs = [e] /\
      exists before c, evs = before ++ [Settled c (Rejected e)]
  end.
Proof.
  intros Hco. unfold Promise_all. intros H. apply bind_run in H.
  assert (Hcalls : calls (imap pair ps) = map call ps)
    by apply (calls_imap ps (fun j => j)).
  assert (Hkeys : keys (imap pair ps) = seq 0 (length ps)).
  { rewrite <- (map_id (seq 0 (length ps))).
    apply (keys_imap ps (fun j => j)). }
  assert (Hcoh : Forall (fun kp => coherent (snd kp)) (imap pair ps))
    by apply (coherent_imap ps (fun j => j)), Hco.
  destruct (settle_all _ _ _ _ _) as [e1 r1] eqn:Hs.
  apply settle_all_run in Hs; [| now rewrite length_imap | exact Hcoh].
  destruct r1 as [final|e].
  - destruct H as (e2 & [= <- <-] & ->). rewrite app_nil_r.
    destruct Hs as (Hrej & Hperm & Hdom).
    rewrite Hcalls in Hperm.
    split; [exact Hrej |]. split; [exact Hperm |].
    rewrite length_omap_all; [apply length_seq |].
    intros k Hk. apply Hdom. right. now rewrite Hkeys.
  - destruct H as [-> ->]. exact Hs.
Qed.

End PromiseAllFacts.

(** ** How a run of [_stop] ends *)

Lemma removePromise_coherent rt c : coherent (removePromise rt c).
Proof. intros h. simpl. now destruct (remove rt h c _). Qed.

Lemma removePromises_coherent rt (l : list Container) :
  Forall coherent (map (removePromise rt) l).
Proof.
  induction l; simpl; constructor; auto using removePromise_coherent.
Qed.

Lemma settled_map_Issued {A} (f : A -> Call) (l : list A) :
  settled (map (fun x => Issued (f x)) l) = [] /\
  rejections (map (fun x => Issued (f x)) l) = [].
Proof. induction l as [|x l [IH1 IH2]]; simpl; auto. Qed.

(** A run of [_stop], with the wait for the removals set apart. *)
Lemma stop_run_wait rt this config h evs r :
  _stop rt this config h = (evs, r) ->
  match listContainers rt (h ++ [Issued (findQuery this (buildId config))])
          (listArgs this (buildId config)) with
  | Rejected e =>
      evs = [Issued (findQuery this (buildId config));
             Settled (findQuery this (buildId config)) (Rejected e)] /\
      r = Rejected e
  | Resolved found =>
      let containers := map (fun c => getContainer (Id c)) found in
      exists h' tail,
        evs = [Issued (findQuery this (buildId config));
               Settled (findQuery this (buildId config))
                 (Resolved (VContainers found))]
              ++ map (fun c => Issued (removeCall c)) containers ++ tail /\
        Promise_all rt (map (removePromise rt) containers) h' = (tail, r)
  end.
Proof.
  unfold _stop, and_then, _findContainers. intros H.
  apply bind_run in H. revert H. unfold bind at 1, runCommand, ret.
  cbn [app]. intros (e2 & H & ->).
  apply bind_run in H. revert H. unfold await, Promise_then. cbn [settle call].
  unfold findQuery.
  destruct (listContainers rt _ _) as [found|e]; cbn [Result_map].
  2:{ intros [-> ->]. auto. }
  intros (e3 & H & ->). apply bind_run in H. revert H.
  rewrite mapM_removeContainer.
  intros (tail & H & ->). cbn zeta. eauto.
Qed.

(** X4: [_stop] resolves only when the query and every removal it issued have
    resolved, each settled once, with one value per removal; it rejects with
    the first error it sees, of the query or of a removal, and sees nothing
    after it. *)
Theorem stop_outcome rt this config h evs r :
  _stop rt this config h = (evs, r) ->
  match r with
  | Resolved vs =>
      rejections evs = [] /\
      Permutation (settled evs) (issued evs) /\
      S (length vs) = length (issued evs)
  | Rejected e =>
      rejections evs = [e] /\
      exists before c, evs = before ++ [Settled c (Rejected e)]
  end.
Proof.
  intros Hrun. apply stop_run_wait in Hrun.
  destruct (listContainers rt _ _) as [found|e].
  - destruct Hrun as (h' & tail & -> & Hall).
    set (containers := map (fun c => getContainer (Id c)) found) in *.
    pose proof (Promise_all_issues_nothing rt _ _ _ _ Hall) as Hnone.
    apply Promise_all_run in Hall; [| apply removePromises_coherent].
    destruct (settled_map_Issued removeCall containers) as [Hs Hr].
    cbn [app].
    assert (Hissued :
              issued (Issued (findQuery this (buildId config))
                      :: Settled (findQuery this (buildId config))
                           (Resolved (VContainers found))
                      :: map (fun c => Issued (removeCall c)) containers
                         ++ tail)
              = findQuery this (buildId config) :: map removeCall containers).
    { rewrite issued_Issued, issued_Settled, issued_app, Hnone, app_nil_r.
      now rewrite (issued_map_Issued removeCall). }
    destruct r as [vs|e].
    + destruct Hall as (Hrej & Hperm & Hlen).
      rewrite map_map in Hperm. rewrite length_map in Hlen.
      split; [|split].
      * change (rejections (map (fun c => Issued (removeCall c)) containers
                            ++ tail) = []).
        now rewrite rejections_app, Hr, Hrej.
      * rewrite Hissued.
        change (Permutation
                  (findQuery this (buildId config)
                   :: settled (map (fun c => Issued (removeCall c)) containers
                               ++ tail))
                  (findQuery this (buildId config)
                   :: map removeCall containers)).
        constructor. now rewrite settled_app, Hs.
      * rewrite Hissued. simpl. now rewrite length_map, Hlen.
    + destruct Hall as (Hrej & before & c & ->).
      split.
      * change (rejections (map (fun c => Issued (removeCall c)) containers
                            ++ before ++ [Settled c (Rejected e)]) = [e]).
        now rewrite rejections_app, Hr, Hrej.
      * eexists (_ :: _ :: _ ++ before), c.
        cbn [app]. now rewrite <- app_assoc.
  - destruct Hrun as [-> ->]. split; [reflexivity |].
    exists [Issued (findQuery this (buildId config))],
      (findQuery this (buildId config)). reflexivity.
Qed.

Lemma stop_outcome_witness :
  let found := [{| Id := "a" |}; {| Id := "b" |}; {| Id := "c" |}] in
  let run :=
    _stop (Scenario.runtime_remove_fails found "b") Example.executor
      Example.config [] in
  snd run = Rejected "Unable to remove container" /\
  rejections (fst run) = ["Unable to remove container"] /\
  length (issued (fst run)) = 4 /\
  length (settled (fst run)) = 3.
Proof.
  intros found run.
  pose proof (stop_outcome (Scenario.runtime_remove_fails found "b")
                Example.executor Example.config [] (fst run)
                (Rejected "Unable to remove container") eq_refl) as [Hrej _].
  split; [reflexivity |]. split; [exact Hrej |]. split; reflexivity.
Defined.

(** ** Labels and names, from one build to another *)

Section LabelFacts.

Lemma length_append (a b : string) :
  String.length (a +:+ b) = String.length a + String.length b.
Proof. induction a as [|c a IH]; simpl; [reflexivity | now rewrite IH]. Qed.

Lemma append_cancel_r (a b s : string) : a +:+ s = b +:+ s -> a = b.
Proof.
  revert b. induction a as [|x a IH]; intros [|y b] H; simpl in H.
  - reflexivity.
  - apply (f_equal String.length) in H. simpl in H.
    rewrite length_append in H. lia.
  - apply (f_equal String.length) in H. simpl in H.
    rewrite length_append in H. lia.
  - injection H as -> H. f_equal. now apply IH.
Qed.

Lemma last_char_append (a : string) c s :
  last_char (a +:+ String c s) = last_char (String c s).
Proof.
  induction a as [|x a IH]; [reflexivity |].
  change (String x a +:+ String c s) with (String x (a +:+ String c s)).
  cbn [last_char]. rewrite IH.
  destruct (a +:+ String c s) eqn:Ha; [|reflexivity].
  destruct a; discriminate.
Qed.

(** [JSON.escape] can be read back: it is a prefix code. *)
Lemma unescape_head_escape c (rest : string) :
  unescape_head (JSON.escape c +:+ rest) = Some (c, rest).
Proof.
  destruct c as [[] [] [] [] [] [] [] []]; reflexivity.
Qed.

Lemma escape_all_inj (a b : string) :
  JSON.escape_all a = JSON.escape_all b -> a = b.
Proof.
  revert b. induction a as [|x a IH]; intros [|y b] H.
  - reflexivity.
  - apply (f_equal unescape_head) in H. simpl in H.
    now rewrite unescape_head_escape in H.
  - apply (f_equal unescape_head) in H. simpl in H.
    now rewrite unescape_head_escape in H.
  - apply (f_equal unescape_head) in H. simpl in H.
    rewrite !unescape_head_escape in H. injection H as -> H.
    f_equal. now apply IH.
Qed.

Lemma quote_inj (a b : string) : JSON.quote a = JSON.quote b -> a = b.
Proof.
  unfold JSON.quote. intros [= H].
  apply append_cancel_r in H. now apply escape_all_inj.
Qed.

Lemma sdbuild_inj this (a b : Z) : sdbuild this a = sdbuild this b -> a = b.
Proof.
  unfold sdbuild. intros H%append_cancel_l. now apply pretty_Z_inj.
Qed.

Lemma filters_shape this (buildId : Z) :
  filters (listArgs this buildId)
  = ("{" +:+ JSON.quote "label" +:+ ":[")
    +:+ ((JSON.quote ("sdbuild=" +:+ sdbuild this buildId) +:+ "]") +:+ "}").
Proof. reflexivity. Qed.

Lemma listArgs_inj this (a b : Z) : listArgs this a = listArgs this b -> a = b.
Proof.
  intros H. apply (f_equal filters) in H. rewrite !filters_shape in H.
  apply append_cancel_l, append_cancel_r, append_cancel_r in H.
  apply quote_inj, append_cancel_l in H. now apply (sdbuild_inj this).
Qed.

End LabelFacts.

(** X5: under one executor, two builds never share a tracking label, a
    container name or a query of [_stop]. *)
Theorem builds_never_share_names this (config1 config2 : Config)
    launchContainer1 launchContainer2 :
  buildId config1 <> buildId config2 ->
  Labels (launchContainerOptions this config1)
  <> Labels (launchContainerOptions this config2) /\
  Labels (buildContainerOptions this config1 launchContainer1)
  <> Labels (buildContainerOptions this config2 launchContainer2) /\
  name (launchContainerOptions this config1)
  <> name (launchContainerOptions this config2) /\
  name (buildContainerOptions this config1 launchContainer1)
  <> name (buildContainerOptions this config2 launchContainer2) /\
  listArgs this (buildId config1) <> listArgs this (buildId config2).
Proof.
  intros Hne.
  assert (Hlabel : forall a b : string,
             ({[ "sdbuild" := a ]} : gmap string string) = {[ "sdbuild" := b ]}
             -> a = b).
  { intros a b H. apply (f_equal (fun m => m !! "sdbuild")) in H.
    rewrite !lookup_singleton_eq in H. now injection H. }
  repeat split; intros H; apply Hne.
  - now apply Hlabel, sdbuild_inj in H.
  - now apply Hlabel, sdbuild_inj in H.
  - now apply append_cancel_r, sdbuild_inj in H.
  - now apply append_cancel_r, sdbuild_inj in H.
  - now apply listArgs_inj in H.
Qed.

Lemma builds_never_share_names_witness :
  let other :=
    {| buildId := 1993; container := "node:6"; token := "654321";
       annotations := None |} in
  name (launchContainerOptions Example.executor Example.config)
  <> name (launchContainerOptions Example.executor other) /\
  listArgs Example.executor 1992 <> listArgs Example.executor 1993.
Proof.
  intros other.
  destruct (builds_never_share_names Example.executor Example.config other
              {| id := "a" |} {| id := "b" |})
    as (_ & _ & Hname & _ & Hquery); [discriminate |].
  split; assumption.
Defined.

(** X6: the name of a support container is never the name of a build
    container, of the same build or of another. *)
Theorem support_name_is_no_build_name this (config1 config2 : Config)
    launchContainer :
  name (launchContainerOptions this config1)
  <> name (buildContainerOptions this config2 launchContainer).
Proof.
  intros H. apply (f_equal last_char) in H. cbn [name launchContainerOptions
    buildContainerOptions] in H.
  change "-init" with (String "-" "init") in H.
  change "-build" with (String "-" "build") in H.
  rewrite !last_char_append in H. discriminate H.
Qed.

Section PrettyFacts.

Lemma pretty_N_go_append (x : N) (s : string) :
  pretty_N_go x s = pretty_N_go x EmptyString +:+ s.
Proof.
  revert s. induction (N.lt_wf_0 x) as [x _ IH]. intros s.
  destruct (N.eq_dec x 0%N) as [-> | Hx]; [now rewrite !pretty_N_go_0 |].
  rewrite !(pretty_N_go_step x) by lia.
  assert (Hlt : (x `div` 10 < x)%N) by (apply N.div_lt; lia).
  rewrite (IH _ Hlt (String _ s)), (IH _ Hlt (String _ EmptyString)).
  now rewrite append_assoc.
Qed.

Lemma pretty_Z_positive (z : Z) :
  (0 < z)%Z -> pretty z = pretty_N_go (Z.to_N z) EmptyString.
Proof. destruct z; try lia. reflexivity. Qed.

Lemma pretty_Z_digit (b : Z) :
  (0 <= b < 10)%Z ->
  pretty b = String (pretty_N_char (Z.to_N b)) EmptyString.
Proof.
  intros Hb.
  assert (Hcases : In b [0; 1; 2; 3; 4; 5; 6; 7; 8; 9]%Z) by (simpl; lia).
  simpl in Hcases.
  repeat (destruct Hcases as [<- | Hcases]; [reflexivity |]).
  contradiction.
Qed.

(** The decimal form of [10 * a + b] is that of [a] followed by the digit
    [b]. *)
Lemma pretty_Z_shift (a b : Z) :
  (0 < a)%Z -> (0 <= b < 10)%Z ->
  pretty (10 * a + b)%Z = pretty a +:+ pretty b.
Proof.
  intros Ha Hb.
  rewrite (pretty_Z_positive (10 * a + b)) by lia.
  rewrite (pretty_Z_positive a Ha), (pretty_Z_digit b Hb).
  replace (Z.to_N (10 * a + b)) with (10 * Z.to_N a + Z.to_N b)%N by lia.
  rewrite pretty_N_go_step by lia.
  replace ((10 * Z.to_N a + Z.to_N b) `div` 10)%N with (Z.to_N a).
  2:{ apply N.div_unique with (r := Z.to_N b); lia. }
  replace ((10 * Z.to_N a + Z.to_N b) `mod` 10)%N with (Z.to_N b).
  2:{ apply N.mod_unique with (q := Z.to_N a); lia. }
  apply pretty_N_go_append.
Qed.

End PrettyFacts.

(** X7: a prefix does not keep the builds of two executors apart when one
    prefix is the other followed by digits: the label is the prefix and the
    build id written one after the other, so the executor with the longer
    prefix labels, names and queries its build [b] as the other does its
    build [10 * a + b]. *)
Theorem prefix_digits_collide this1 this2 (a b : Z) :
  prefix this2 = prefix this1 +:+ pretty a ->
  (0 < a)%Z -> (0 <= b < 10)%Z ->
  sdbuild this2 b = sdbuild this1 (10 * a + b) /\
  listArgs this2 b = listArgs this1 (10 * a + b) /\
  forall config1 config2,
    buildId config1 = (10 * a + b)%Z -> buildId config2 = b ->
    name (launchContainerOptions this2 config2)
    = name (launchContainerOptions this1 config1) /\
    Labels (launchContainerOptions this2 config2)
    = Labels (launchContainerOptions this1 config1).
Proof.
  intros Hprefix Ha Hb.
  assert (Hlabel : sdbuild this2 b = sdbuild this1 (10 * a + b)).
  { unfold sdbuild. now rewrite Hprefix, pretty_Z_shift, append_assoc. }
  split; [exact Hlabel |]. split.
  - unfold listArgs. now rewrite Hlabel.
  - intros config1 config2 H1 H2. unfold launchContainerOptions. simpl.
    now rewrite H1, H2, Hlabel.
Qed.

Lemma prefix_digits_collide_witness :
  let executor prefix :=
    constructor
      {| Options.ecosystem := {| api := "api"; store := "store"; ui := "ui" |};
         Options.launchVersion := None;
         Options.launchImage := None;
         Options.prefix := Some prefix |} in
  sdbuild (executor "team1") 2 = sdbuild (executor "team") 12 /\
  listArgs (executor "team1") 2 = listArgs (executor "team") 12.
Proof.
  intros executor.
  destruct (prefix_digits_collide (executor "team") (executor "team1") 1 2
              eq_refl)
    as (H1 & H2 & _); [lia | lia |].
  split; assumption.
Defined.

(** ** Every reference the parser accepts *)

Section AcceptedReferences.

Import DockerParseImage Reference.

Lemma repo_tag_inv_tagged (s repo t : string) :
  repo_tag s = Some (repo, Some t) ->
  exists sep,
    is_tag_sep sep = true /\ s = repo +:+ String sep t /\
    repo_name repo = true /\ Js.is_empty t = false.
Proof.
  unfold repo_tag. destruct (Js.span is_repo_char s) as [a r] eqn:Hs.
  destruct a as [|c a]; [discriminate |].
  destruct r as [|sep [|y r]]; try discriminate.
  destruct (is_tag_sep sep) eqn:Hsep; [|discriminate].
  destruct (Js.forallb is_dot_char (String y r)); [|discriminate].
  intros [= <- <-]. apply span_inv in Hs as (-> & Ha & _).
  exists sep. repeat split; assumption.
Qed.

Lemma repo_tag_inv_repo (s repo : string) g4 :
  repo_tag s = Some (repo, g4) -> repo_name repo = true.
Proof.
  destruct g4 as [t|]; intros H.
  - now apply repo_tag_inv_tagged in H as (? & _ & _ & ? & _).
  - now apply repo_tag_inv_plain in H as (_ & ?).
Qed.

(** A match with a tag reads the reference as its segments, the
    repository, a separator and the tag. *)
Lemma regex_match_inv_tagged (s : string) g1 g2 repo t :
  regex_match s = Some (g1, g2, repo, Some t) ->
  exists sep,
    is_tag_sep sep = true /\
    s = with_slash g1 +:+ with_slash g2 +:+ repo +:+ String sep t /\
    repo_name repo = true /\ Js.is_empty t = false /\
    (g1 = None -> g2 = None).
Proof.
  unfold regex_match.
  assert (Hneither :
            match repo_tag s with
            | Some (g3, g4) => Some (None, None, g3, g4)
            | None => None
            end = Some (g1, g2, repo, Some t) ->
            exists sep,
              is_tag_sep sep = true /\
              s = with_slash g1 +:+ with_slash g2 +:+ repo +:+ String sep t /\
              repo_name repo = true /\ Js.is_empty t = false /\
              (g1 = None -> g2 = None)).
  { destruct (repo_tag s) as [[g3 g4]|] eqn:H5; [|discriminate].
    intros [= <- <- <- ->].
    apply repo_tag_inv_tagged in H5 as (sep & Hsep & -> & Hr & Ht).
    exists sep. simpl. auto. }
  destruct (segment s) as [[a r1]|] eqn:H1; [|exact Hneither].
  assert (Hfirst :
            match repo_tag r1 with
            | Some (g3, g4) => Some (Some a, None, g3, g4)
            | None =>
                match repo_tag s with
                | Some (g3, g4) => Some (None, None, g3, g4)
                | None => None
                end
            end = Some (g1, g2, repo, Some t) ->
            exists sep,
              is_tag_sep sep = true /\
              s = with_slash g1 +:+ with_slash g2 +:+ repo +:+ String sep t /\
              repo_name repo = true /\ Js.is_empty t = false /\
              (g1 = None -> g2 = None)).
  { destruct (repo_tag r1) as [[g3 g4]|] eqn:H4; [|exact Hneither].
    intros [= <- <- <- ->].
    apply segment_inv in H1 as (-> & Ha).
    apply repo_tag_inv_tagged in H4 as (sep & Hsep & -> & Hr & Ht).
    exists sep. simpl. rewrite !append_assoc.
    repeat split; try assumption; try discriminate. }
  destruct (segment r1) as [[b r2]|] eqn:H2; [|exact Hfirst].
  destruct (repo_tag r2) as [[g3 g4]|] eqn:H3; [|exact Hfirst].
  intros [= <- <- <- ->].
  apply segment_inv in H1 as (-> & Ha), H2 as (-> & Hb).
  apply repo_tag_inv_tagged in H3 as (sep & Hsep & -> & Hr & Ht).
  exists sep. simpl. rewrite !append_assoc.
  repeat split; try assumption; try discriminate.
Qed.

(** The groups of a match and the record the parser builds from them. *)
Lemma parse_groups (reference : string) p :
  parse reference = Some p ->
  exists g1 g2,
    regex_match reference = Some (g1, g2, repository p, DockerParseImage.tag p) /\
    with_slash g1 +:+ with_slash g2 = 
    with_slash (registry p) +:+ with_slash (namespace p) /\
    DockerParseImage.name p
    = short_name p
      +:+ match DockerParseImage.tag p with
          | Some t => if String.eqb t "latest" then EmptyString else ":" +:+ t
          | None => EmptyString
          end.
Proof.
  unfold parse, short_name.
  destruct (regex_match reference) as [[[[g1 g2] repo] g4]|]; [|discriminate].
  intros Hp. exists g1, g2.
  destruct g1 as [a|], g2 as [b|]; try destruct (Js.existsb _ a);
    injection Hp as <-; simpl; rewrite ?append_nil_r, ?append_assoc;
    repeat split.
Qed.

(** What the parser returns for a reference with a tag. *)
Lemma parse_tagged (reference : string) p t :
  parse reference = Some p -> DockerParseImage.tag p = Some t ->
  exists sep,
    is_tag_sep sep = true /\
    reference = long_name p +:+ String sep t /\
    repo_name (repository p) = true /\ Js.is_empty t = false /\
    DockerParseImage.name p
    = short_name p
      +:+ (if String.eqb t "latest" then EmptyString else ":" +:+ t).
Proof.
  intros Hp Ht.
  destruct (parse_groups reference p Hp) as (g1 & g2 & Hm & Hsegs & Hname).
  rewrite Ht in Hm, Hname.
  apply regex_match_inv_tagged in Hm as (sep & Hsep & Href & Hrepo & Hne & _).
  exists sep. repeat split; try assumption.
  unfold long_name. rewrite <- !append_assoc, <- Hsegs.
  now rewrite Href, !append_assoc.
Qed.

Lemma short_name_not_empty (reference : string) p :
  parse reference = Some p -> Js.is_empty (short_name p) = false.
Proof.
  intros Hp.
  destruct (parse_groups reference p Hp) as (g1 & g2 & Hm & _ & _).
  assert (Hrepo : repo_name (repository p) = true).
  { destruct (DockerParseImage.tag p) as [t|].
    - now apply regex_match_inv_tagged in Hm as (? & _ & _ & ? & _).
    - now apply regex_match_inv_plain in Hm as (_ & ? & _). }
  apply andb_true_iff in Hrepo as [Hne _]. apply negb_true_iff in Hne.
  unfold short_name.
  destruct (with_slash (registry p)) as [|? ?]; [|reflexivity].
  destruct (short_namespace (namespace p)) as [|? ?]; [|reflexivity].
  exact Hne.
Qed.

(** A string holds no colon, or ends in a colon and a piece without. *)
Lemma last_piece (t : string) :
  no_colon t = true \/
  exists pre piece, t = pre +:+ String ":" piece /\ no_colon piece = true.
Proof.
  induction t as [|c t IH]; [now left |].
  destruct IH as [Hfree | (pre & piece & -> & Hpiece)].
  - destruct (Ascii.eqb_spec c ":") as [-> | Hc].
    + right. exists EmptyString, t. auto.
    + left. unfold no_colon. simpl. apply Ascii.eqb_neq in Hc.
      now rewrite Hc.
  - right. exists (String c pre), piece. auto.
Qed.

Lemma append_is_empty (a b : string) :
  Js.is_empty a = false -> Js.is_empty (a +:+ b) = false.
Proof. now destruct a. Qed.

End AcceptedReferences.

Lemma resolve_tagged_short (reference : string) p (t : string) :
  DockerParseImage.parse reference = Some p ->
  DockerParseImage.tag p = Some t ->
  t <> "latest" ->
  no_colon t = true ->
  resolve DockerParseImage.parse reference = Some (short_name p, t).
Proof.
  intros Hp Ht Hlatest Hcolon.
  destruct (parse_tagged reference p t Hp Ht) as (_ & _ & _ & _ & _ & Hname).
  apply String.eqb_neq in Hlatest. rewrite Hlatest in Hname.
  apply String.eqb_neq in Hlatest.
  unfold resolve. rewrite Hp. simpl.
  now rewrite (buildImageTag_tagged p (short_name p) t Ht Hlatest Hname
                 Hcolon).
Qed.

(** X8: for every reference the parser reads with a tag other than [latest]
    that holds no colon, the image [_start] pulls has that tag and, as
    repository, the parser's short name; the reference is the registry, the
    namespace and the repository followed by [:] or [@] and the tag, so
    unless the namespace is [library] the repository is the reference with
    its tag taken off. *)
Theorem resolve_tagged_reference (reference : string) p (t : string) :
  DockerParseImage.parse reference = Some p ->
  DockerParseImage.tag p = Some t ->
  t <> "latest" ->
  no_colon t = true ->
  resolve DockerParseImage.parse reference = Some (short_name p, t) /\
  exists sep,
    DockerParseImage.is_tag_sep sep = true /\
    reference = long_name p +:+ String sep t /\
    (DockerParseImage.namespace p <> Some "library" ->
     reference = short_name p +:+ String sep t).
Proof.
  intros Hp Ht Hlatest Hcolon.
  destruct (parse_tagged reference p t Hp Ht)
    as (sep & Hsep & Href & _ & _ & Hname).
  split.
  - now apply resolve_tagged_short.
  - exists sep. split; [exact Hsep |]. split; [exact Href |].
    intros Hns. rewrite Href. f_equal. unfold long_name, short_name.
    destruct (DockerParseImage.namespace p) as [n|]; [|reflexivity].
    simpl. destruct (String.eqb_spec n "library") as [-> |]; congruence.
Qed.

Lemma resolve_tagged_reference_witness :
  resolve DockerParseImage.parse "registry.example.com:5000/team/app@v2"
  = Some ("registry.example.com:5000/team/app", "v2").
Proof.
  refine (proj1 (resolve_tagged_reference
                   "registry.example.com:5000/team/app@v2" _ "v2"
                   eq_refl eq_refl _ eq_refl)).
  discriminate.
Defined.

(** X9: when the tag holds a colon, as a digest [algorithm:hex] does, only
    what follows its last colon is taken off the short name: the
    repository pulled ends in [:algorithm]. *)
Theorem resolve_digest_reference (reference : string) p (algorithm hex : string) :
  DockerParseImage.parse reference = Some p ->
  DockerParseImage.tag p = Some (algorithm +:+ ":" +:+ hex) ->
  no_colon hex = true ->
  resolve DockerParseImage.parse reference
  = Some (short_name p +:+ ":" +:+ algorithm, algorithm +:+ ":" +:+ hex).
Proof.
  intros Hp Ht Hcolon.
  destruct (parse_tagged reference p _ Hp Ht)
    as (sep & Hsep & Href & _ & _ & Hname).
  assert (Hlatest : algorithm +:+ ":" +:+ hex <> "latest").
  { intros H. apply (f_equal no_colon) in H. unfold no_colon in H.
    change (":" +:+ hex) with (String ":" hex) in H.
    rewrite forallb_append in H. simpl in H.
    now rewrite andb_false_r in H. }
  apply String.eqb_neq in Hlatest. rewrite Hlatest in Hname.
  unfold resolve. rewrite Hp. simpl. unfold buildImageTag.
  rewrite Ht, Hlatest. simpl negb. cbv iota. rewrite Hname.
  replace (short_name p +:+ ":" +:+ algorithm +:+ ":" +:+ hex)
    with ((short_name p +:+ ":" +:+ algorithm) +:+ String ":" hex)
    by now rewrite !append_assoc.
  now rewrite (split_pop_join ":" _ hex Hcolon).
Qed.

Lemma resolve_digest_reference_witness :
  resolve DockerParseImage.parse "node@sha256:0f3a"
  = Some ("node:sha256", "sha256:0f3a").
Proof.
  exact (resolve_digest_reference "node@sha256:0f3a" _ "sha256" "0f3a"
           eq_refl eq_refl eq_refl).
Defined.

(** X10: whatever reference the parser accepts, [_start] pulls an image whose
    repository and tag are not empty, and the repository is the beginning
    of the parser's short name. *)
Theorem resolved_image_not_empty (reference image t : string) :
  resolve DockerParseImage.parse reference = Some (image, t) ->
  Js.is_empty image = false /\ Js.is_empty t = false /\
  exists p rest,
    DockerParseImage.parse reference = Some p /\
    DockerParseImage.name p = image +:+ rest.
Proof.
  unfold resolve.
  destruct (DockerParseImage.parse reference) as [p|] eqn:Hp; [|discriminate].
  simpl. intros [= Hb].
  pose proof (short_name_not_empty reference p Hp) as Hshort.
  destruct (parse_groups reference p Hp) as (_ & _ & _ & _ & Hname).
  assert (Hplain : DockerParseImage.name p = short_name p ->
                   buildImageTag p = (DockerParseImage.name p, "latest") ->
                   Js.is_empty image = false /\ Js.is_empty t = false /\
                   exists p' rest,
                     Some p = Some p' /\
                     DockerParseImage.name p' = image +:+ rest).
  { intros Hn Hb'. rewrite Hb' in Hb. injection Hb as <- <-.
    rewrite Hn. repeat split; [exact Hshort |].
    exists p, EmptyString. now rewrite append_nil_r. }
  destruct (DockerParseImage.tag p) as [tag|] eqn:Ht.
  - destruct (String.eqb_spec tag "latest") as [-> | Hlatest].
    + apply Hplain; [now rewrite Hname, append_nil_r |].
      apply buildImageTag_untagged. now right.
    + destruct (parse_tagged reference p tag Hp Ht) as (_ & _ & _ & _ & Hne & _).
      clear Hplain. unfold buildImageTag in Hb. rewrite Ht in Hb.
      apply String.eqb_neq in Hlatest. rewrite Hlatest in Hb. simpl in Hb.
      rewrite Hname in Hb.
      destruct (last_piece tag) as [Hfree | (pre & piece & -> & Hpiece)].
      * change (":" +:+ tag) with (String ":" tag) in Hb.
        rewrite (split_pop_join ":" _ tag Hfree) in Hb.
        injection Hb as <- <-. repeat split; try assumption.
        exists p, (":" +:+ tag). split; [reflexivity | exact Hname].
      * replace (short_name p +:+ ":" +:+ pre +:+ String ":" piece)
          with ((short_name p +:+ ":" +:+ pre) +:+ String ":" piece) in Hb
          by now rewrite !append_assoc.
        rewrite (split_pop_join ":" _ piece Hpiece) in Hb.
        injection Hb as <- <-. repeat split.
        -- now apply append_is_empty.
        -- exact Hne.
        -- exists p, (String ":" piece). split; [reflexivity |].
           rewrite Hname. now rewrite !append_assoc.
  - apply Hplain; [now rewrite Hname, append_nil_r |].
    apply buildImageTag_untagged. now left.
Qed.

Lemma resolved_image_not_empty_witness :
  Js.is_empty "docker-registry.foo.bar:1111/someImage" = false /\
  Js.is_empty "v2" = false.
Proof.
  destruct (resolved_image_not_empty
              "docker-registry.foo.bar:1111/someImage:v2"
              "docker-registry.foo.bar:1111/someImage" "v2" eq_refl)
    as (Himage & Htag & _).
  split; assumption.
Defined.

(** X11: a reference with three path segments before the repository is not
    in the parser's grammar, when those segments hold no colon and no [@]:
    the parser returns [null], [_start] throws on [piecesParts.tag] and
    issues no call. *)
Theorem start_throws_on_deep_path (a b c rest : string) :
  Reference.repo_name a = true ->
  Reference.repo_name b = true ->
  Reference.repo_name c = true ->
  let reference := a +:+ "/" +:+ b +:+ "/" +:+ c +:+ "/" +:+ rest in
  DockerParseImage.parse reference = None /\
  forall rt this config,
    container config = reference ->
    _start DockerParseImage.parse rt this config = None.
Proof.
  intros Ha Hb Hc reference.
  assert (Hstuck : forall x tail,
             Reference.repo_name x = true ->
             DockerParseImage.repo_tag (x +:+ "/" +:+ tail) = None).
  { intros x tail [Hne Hx]%andb_true_iff.
    unfold DockerParseImage.repo_tag.
    change ("/" +:+ tail) with (String "/" tail).
    rewrite (span_stop _ x "/" tail Hx eq_refl).
    destruct x; [discriminate |]. now destruct tail. }
  assert (Hseg : forall x tail,
             Reference.repo_name x = true ->
             DockerParseImage.segment (x +:+ "/" +:+ tail) = Some (x, tail)).
  { intros x tail Hx. apply segment_intro.
    apply andb_true_iff in Hx as [Hne Hx]. unfold Reference.segment_name.
    rewrite Hne. simpl. now apply (forallb_impl _ _ x repo_char_no_slash). }
  assert (Hp : DockerParseImage.parse reference = None).
  { unfold DockerParseImage.parse, DockerParseImage.regex_match, reference.
    rewrite (Hseg a _ Ha), (Hseg b _ Hb).
    now rewrite (Hstuck c rest Hc), (Hstuck b _ Hb), (Hstuck a _ Ha). }
  split; [exact Hp |].
  intros rt this config Hcontainer. unfold _start.
  now rewrite Hcontainer, Hp.
Qed.

Lemma start_throws_on_deep_path_witness :
  DockerParseImage.parse "gcr.io/project/team/app:1.0" = None /\
  _start DockerParseImage.parse (Example.runtime []) Example.executor
    {| buildId := 1992; container := "gcr.io/project/team/app:1.0";
       token := "123456"; annotations := None |}
  = None.
Proof.
  destruct (start_throws_on_deep_path "gcr.io" "project" "team" "app:1.0"
              eq_refl eq_refl eq_refl)
    as [Hp Hs].
  split; [exact Hp | now apply Hs].
Defined.

(** ** The first revision *)

Section FirstRevisionFacts.

Lemma first_revision_no_colon (reference : string) :
  no_colon reference = true ->
  FirstRevision.resolve reference = (reference, "latest").
Proof.
  intros H. unfold FirstRevision.resolve.
  now rewrite (split_no_sep ":" reference H).
Qed.

Lemma first_revision_one_colon (image t : string) :
  no_colon image = true -> no_colon t = true -> Js.is_empty t = false ->
  FirstRevision.resolve (image +:+ String ":" t) = (image, t).
Proof.
  intros Hi Ht Hne. unfold FirstRevision.resolve.
  rewrite split_append, (split_no_sep ":" image Hi), (split_no_sep ":" t Ht).
  simpl. now destruct t.
Qed.

End FirstRevisionFacts.

(** X12: the first revision cut the reference at its colons and kept the first
    two pieces: with a registry port in the reference, the image pulled had
    the host for repository and what follows the port's colon for tag. *)
Theorem first_revision_port_is_tag (host path : string) :
  no_colon host = true -> no_colon path = true -> Js.is_empty path = false ->
  FirstRevision.resolve (host +:+ ":" +:+ path) = (host, path) /\
  forall rest,
    FirstRevision.resolve (host +:+ ":" +:+ path +:+ ":" +:+ rest)
    = (host, path).
Proof.
  intros Hh Hp Hne. split.
  - now apply first_revision_one_colon.
  - intros rest. unfold FirstRevision.resolve.
    change (host +:+ ":" +:+ path +:+ ":" +:+ rest)
      with (host +:+ String ":" (path +:+ String ":" rest)).
    rewrite !split_append, (split_no_sep ":" host Hh), (split_no_sep ":" path Hp).
    simpl. now destruct path.
Qed.

Lemma first_revision_port_is_tag_witness :
  FirstRevision.resolve "docker-registry.foo.bar:1111/someImage:v2"
  = ("docker-registry.foo.bar", "1111/someImage").
Proof.
  exact (proj2 (first_revision_port_is_tag "docker-registry.foo.bar"
                  "1111/someImage" eq_refl eq_refl eq_refl) "v2").
Defined.

(** X13: on a reference without [@], with no colon but the one before its tag
    and no [library] namespace, the first revision and the parser-based one
    pull the same image. *)
Theorem revisions_agree (reference : string) p :
  DockerParseImage.parse reference = Some p ->
  DockerParseImage.namespace p <> Some "library" ->
  no_at reference = true ->
  no_colon (long_name p) = true ->
  (forall t, DockerParseImage.tag p = Some t -> no_colon t = true) ->
  resolve DockerParseImage.parse reference
  = Some (FirstRevision.resolve reference).
Proof.
  intros Hp Hns Hat Hlong Htag.
  assert (Hshort : short_name p = long_name p).
  { unfold long_name, short_name.
    destruct (DockerParseImage.namespace p) as [n|]; [|reflexivity].
    simpl. destruct (String.eqb_spec n "library") as [-> |]; congruence. }
  destruct (DockerParseImage.tag p) as [t|] eqn:Ht.
  - specialize (Htag t eq_refl).
    destruct (parse_tagged reference p t Hp Ht)
      as (sep & Hsep & Href & _ & Hne & Hname).
    assert (sep = ":"%char) as ->.
    { unfold DockerParseImage.is_tag_sep in Hsep.
      apply orb_true_iff in Hsep as [Hsep | Hsep];
        apply Ascii.eqb_eq in Hsep; [|exact Hsep].
      subst sep. rewrite Href in Hat. unfold no_at in Hat.
      rewrite forallb_append in Hat. simpl in Hat.
      now rewrite andb_false_r in Hat. }
    rewrite Href, (first_revision_one_colon _ t Hlong Htag Hne), <- Href.
    destruct (String.eqb_spec t "latest") as [-> | Hlatest].
    + unfold resolve. rewrite Hp. simpl.
      rewrite buildImageTag_untagged by now right.
      now rewrite Hname, append_nil_r, Hshort.
    + rewrite (resolve_tagged_short reference p t Hp Ht Hlatest Htag).
      now rewrite Hshort.
  - destruct (parse_untagged reference p Hp Ht) as (Href & Hname & _).
    fold (long_name p) in Href. fold (short_name p) in Hname.
    rewrite Href at 2. rewrite (first_revision_no_colon _ Hlong).
    unfold resolve. rewrite Hp. simpl.
    rewrite buildImageTag_untagged by now left.
    now rewrite Hname, Hshort.
Qed.

Lemma revisions_agree_witness :
  resolve DockerParseImage.parse "screwdrivercd/launcher:stable"
  = Some (FirstRevision.resolve "screwdrivercd/launcher:stable").
Proof.
  refine (revisions_agree "screwdrivercd/launcher:stable" _ eq_refl _
            eq_refl eq_refl _).
  - discriminate.
  - now intros t [= <-].
Defined.

(** ** The timeout annotation as a string *)

Section TimeoutStrings.

Lemma pretty_Z_not_empty (n : Z) : Js.is_empty (pretty n) = false.
Proof.
  destruct n as [|p|p]; [reflexivity | | reflexivity].
  destruct (pretty_positive_digits p) as (c & r & Hp & _).
  change (pretty (Z.pos p)) with (pretty p). now rewrite Hp.
Qed.

Lemma timeout_truthy config value :
  timeout_annotation config = Some value -> truthy value = true ->
  timeout config = parseInt value.
Proof.
  unfold timeout_annotation, timeout, reach_annotations.
  destruct (annotations config) as [m|]; [|discriminate].
  intros -> Hv. simpl. unfold js_or. now rewrite Hv.
Qed.

Lemma parseInt_leading_digits (ds rest : string) :
  Js.forallb is_digit ds = true -> Js.is_empty ds = false ->
  match rest with
  | EmptyString => True
  | String c _ => is_digit c = false
  end ->
  parseInt (JsString (ds +:+ rest)) = Some (digits_value 0 ds).
Proof.
  intros Hd Hne Hrest.
  assert (Hspan : Js.span is_digit (ds +:+ rest) = (ds, rest)).
  { destruct rest as [|c rest].
    - rewrite append_nil_r. now apply span_all.
    - now apply span_stop. }
  destruct ds as [|d ds]; [discriminate |].
  pose proof Hd as Hc. simpl in Hc. apply andb_true_iff in Hc as [Hc _].
  destruct (digit_not_space_or_sign d Hc) as (Hs & Hm & Hp).
  unfold parseInt. cbn [ToString]. 
  change (String d ds +:+ rest) with (String d (ds +:+ rest)) in *.
  cbn [Js.span]. rewrite Hs. cbn [snd]. rewrite Hm, Hp, Hspan. cbn [fst].
  now rewrite Z.mul_1_l.
Qed.

Lemma parseInt_no_digits value c (r : string) :
  ToString value = String c r ->
  is_space c = false -> is_digit c = false -> c <> "-"%char -> c <> "+"%char ->
  parseInt value = None.
Proof.
  intros Hs Hspace Hdigit Hminus Hplus.
  apply Ascii.eqb_neq in Hminus, Hplus.
  unfold parseInt. rewrite Hs. cbn [Js.span]. rewrite Hspace. cbn [snd].
  rewrite Hminus, Hplus. cbn [Js.span]. now rewrite Hdigit.
Qed.

End TimeoutStrings.

(** X14: an annotation that holds a safe integer in decimal, as a string,
    sets the timeout to that number, 0 included (the string ["0"] is not
    falsy): in every run of [_start] the build container carries it in its
    command, and a run that resolves has created that container. *)
Theorem timeout_number_as_string imageParser rt this config (n : Z)
    m h evs r :
  timeout_annotation config = Some (JsString (pretty n)) ->
  isSafeInteger n = true ->
  _start imageParser rt this config = Some m ->
  m h = (evs, r) ->
  timeout config = Some n /\
  (forall o,
     In (Issued (CreateContainer o)) evs ->
     o <> launchContainerOptions this config ->
     Cmd o
     = Some
         [ "/opt/sd/run.sh" +:+ " "
           +:+ String Js.dquote (token config +:+ Js.str Js.dquote) +:+ " "
           +:+ api (ecosystem this) +:+ " "
           +:+ store (ecosystem this) +:+ " "
           +:+ pretty n +:+ " "
           +:+ pretty (buildId config) +:+ " "
           +:+ ui (ecosystem this) ]) /\
  (r = Resolved tt ->
   exists o,
     In (Issued (CreateContainer o)) evs /\
     Cmd o
     = Some
         [ "/opt/sd/run.sh" +:+ " "
           +:+ String Js.dquote (token config +:+ Js.str Js.dquote) +:+ " "
           +:+ api (ecosystem this) +:+ " "
           +:+ store (ecosystem this) +:+ " "
           +:+ pretty n +:+ " "
           +:+ pretty (buildId config) +:+ " "
           +:+ ui (ecosystem this) ]).
Proof.
  intros Hvalue Hsafe Hm Hrun.
  assert (Ht : timeout config = Some n).
  { rewrite (timeout_truthy config _ Hvalue).
    - change (parseInt (JsString (pretty n))) with (parseInt (JsNumber n)).
      apply parseInt_number.
    - simpl. now rewrite pretty_Z_not_empty. }
  split; [exact Ht |].
  exact (start_command _ _ _ _ _ _ _ _ (Some n) Hm Hrun Ht).
Qed.

Lemma timeout_number_as_string_witness :
  timeout (Example.request (JsString "0")) = Some 0%Z /\
  exists o,
    In (Issued (CreateContainer o))
      (fst (Example.run_request (JsString "0"))) /\
    Cmd o = Some (Example.command "0").
Proof.
  destruct (timeout_number_as_string DockerParseImage.parse (Example.runtime [])
              Example.executor (Example.request (JsString "0")) 0 _ []
              (fst (Example.run_request (JsString "0")))
              (snd (Example.run_request (JsString "0")))
              eq_refl eq_refl eq_refl eq_refl)
    as (Ht & _ & Hcreated).
  split; [exact Ht | exact (Hcreated eq_refl)].
Defined.

(** X15: of an annotation that is a string beginning with digits that
    write a safe integer, the timeout is that integer; what follows the
    digits, a unit or a fraction, is dropped, and in every run of [_start]
    the build container carries the integer in its command. *)
Theorem timeout_reads_leading_digits imageParser rt this config
    (ds rest : string) m h evs r :
  timeout_annotation config = Some (JsString (ds +:+ rest)) ->
  Js.forallb is_digit ds = true -> Js.is_empty ds = false ->
  isSafeInteger (digits_value 0 ds) = true ->
  match rest with
  | EmptyString => True
  | String c _ => is_digit c = false
  end ->
  _start imageParser rt this config = Some m ->
  m h = (evs, r) ->
  timeout config = Some (digits_value 0 ds) /\
  (forall o,
     In (Issued (CreateContainer o)) evs ->
     o <> launchContainerOptions this config ->
     Cmd o
     = Some
         [ "/opt/sd/run.sh" +:+ " "
           +:+ String Js.dquote (token config +:+ Js.str Js.dquote) +:+ " "
           +:+ api (ecosystem this) +:+ " "
           +:+ store (ecosystem this) +:+ " "
           +:+ pretty (digits_value 0 ds) +:+ " "
           +:+ pretty (buildId config) +:+ " "
           +:+ ui (ecosystem this) ]) /\
  (r = Resolved tt ->
   exists o,
     In (Issued (CreateContainer o)) evs /\
     Cmd o
     = Some
         [ "/opt/sd/run.sh" +:+ " "
           +:+ String Js.dquote (token config +:+ Js.str Js.dquote) +:+ " "
           +:+ api (ecosystem this) +:+ " "
           +:+ store (ecosystem this) +:+ " "
           +:+ pretty (digits_value 0 ds) +:+ " "
           +:+ pretty (buildId config) +:+ " "
           +:+ ui (ecosystem this) ]).
Proof.
  intros Hvalue Hd Hne Hsafe Hrest Hm Hrun.
  assert (Ht : timeout config = Some (digits_value 0 ds)).
  { rewrite (timeout_truthy config _ Hvalue).
    - now apply parseInt_leading_digits.
    - simpl. now destruct ds. }
  split; [exact Ht |].
  exact (start_command _ _ _ _ _ _ _ _ (Some (digits_value 0 ds)) Hm Hrun Ht).
Qed.

Lemma timeout_reads_leading_digits_witness :
  timeout (Example.request (JsString "1.5h")) = Some 1%Z /\
  exists o,
    In (Issued (CreateContainer o))
      (fst (Example.run_request (JsString "1.5h"))) /\
    Cmd o = Some (Example.command "1").
Proof.
  destruct (timeout_reads_leading_digits DockerParseImage.parse
              (Example.runtime []) Example.executor
              (Example.request (JsString "1.5h")) "1" ".5h" _ []
              (fst (Example.run_request (JsString "1.5h")))
              (snd (Example.run_request (JsString "1.5h")))
              eq_refl eq_refl eq_refl eq_refl eq_refl eq_refl eq_refl)
    as (Ht & _ & Hcreated).
  split; [exact Ht | exact (Hcreated eq_refl)].
Defined.

(** X16: a truthy annotation whose text begins with neither white space, a
    sign nor a digit gives no number: the timeout is [NaN], and in every
    run of [_start] the command of the build container carries the word
    [NaN] where the minutes go. *)
Theorem timeout_not_a_number imageParser rt this config value c (s : string)
    m h evs r :
  timeout_annotation config = Some value ->
  truthy value = true ->
  ToString value = String c s ->
  is_space c = false -> is_digit c = false ->
  c <> "-"%char -> c <> "+"%char ->
  _start imageParser rt this config = Some m ->
  m h = (evs, r) ->
  timeout config = None /\
  (forall o,
     In (Issued (CreateContainer o)) evs ->
     o <> launchContainerOptions this config ->
     Cmd o
     = Some
         [ "/opt/sd/run.sh" +:+ " "
           +:+ String Js.dquote (token config +:+ Js.str Js.dquote) +:+ " "
           +:+ api (ecosystem this) +:+ " "
           +:+ store (ecosystem this) +:+ " "
           +:+ "NaN" +:+ " "
           +:+ pretty (buildId config) +:+ " "
           +:+ ui (ecosystem this) ]) /\
  (r = Resolved tt ->
   exists o,
     In (Issued (CreateContainer o)) evs /\
     Cmd o
     = Some
         [ "/opt/sd/run.sh" +:+ " "
           +:+ String Js.dquote (token config +:+ Js.str Js.dquote) +:+ " "
           +:+ api (ecosystem this) +:+ " "
           +:+ store (ecosystem this) +:+ " "
           +:+ "NaN" +:+ " "
           +:+ pretty (buildId config) +:+ " "
           +:+ ui (ecosystem this) ]).
Proof.
  intros Hvalue Htruthy Hs Hspace Hdigit Hminus Hplus Hm Hrun.
  assert (Ht : timeout config = None).
  { rewrite (timeout_truthy config _ Hvalue Htruthy).
    now apply (parseInt_no_digits value c s). }
  split; [exact Ht |].
  exact (start_command _ _ _ _ _ _ _ _ None Hm Hrun Ht).
Qed.

Lemma timeout_not_a_number_witness :
  timeout (Example.request (JsBool true)) = None /\
  exists o,
    In (Issued (CreateContainer o))
      (fst (Example.run_request (JsBool true))) /\
    Cmd o = Some (Example.command "NaN").
Proof.
  assert (Hminus : "t"%char <> "-"%char) by discriminate.
  assert (Hplus : "t"%char <> "+"%char) by discriminate.
  destruct (timeout_not_a_number DockerParseImage.parse (Example.runtime [])
              Example.executor (Example.request (JsBool true)) (JsBool true)
              "t" "rue" _ []
              (fst (Example.run_request (JsBool true)))
              (snd (Example.run_request (JsBool true)))
              eq_refl eq_refl eq_refl eq_refl eq_refl Hminus Hplus eq_refl
              eq_refl)
    as (Ht & _ & Hcreated).
  split; [exact Ht | exact (Hcreated eq_refl)].
Defined.

(** ** The launcher image of a constructed executor *)

(** X17: whatever the options, the launcher image a constructed executor pulls
    has a repository and a tag that are not empty: an option that is
    missing or empty gives way to the default. *)
Theorem constructed_launcher_not_empty (options : Options.t) :
  Js.is_empty (fromImage (launcherImageOptions (constructor options))) = false /\
  Js.is_empty (tag (launcherImageOptions (constructor options))) = false.
Proof.
  unfold launcherImageOptions, constructor. simpl.
  destruct (Options.launchImage options) as [[|? ?]|],
    (Options.launchVersion options) as [[|? ?]|]; split; reflexivity.
Qed.
